(** * VirtualMemory: a simulated flat memory space (src/memory.ts)

    Shallow embedding of the [VirtualMemory] class and of the string codec
    built on it, followed by the properties of the address allocator, the
    bounds-checked region operations and the scalar codec. *)

From Stdlib Require Import ZArith Lia List.
From Stdlib Require Strings.Byte.
From stdpp Require Import gmap strings list fin_maps.
From Equations Require Import Equations.
From Equations.Prop Require Import Logic.

Local Open Scope Z_scope.

Abbreviation byte := Byte.byte.

(** ** Completions

    A method either returns a value or throws.  The three error classes the
    source raises are kept apart, each with its message. *)

Inductive exn : Type :=
| RangeError (msg : string)
| TypeError (msg : string)
| Error (msg : string).

Inductive completion (A : Type) : Type :=
| Return (v : A)
| Throw (e : exn).

Arguments Return {A} v.
Arguments Throw {A} e.

(** ** Typed arrays

    A block is the content of the [ArrayBuffer] behind the [Uint8Array] that
    [alloc] creates; its [byteLength] is the length of that list.  A
    [Uint8Array] handed out by [read] is a view: it names the buffer it was
    cut from, where it starts and how many elements it has. *)

Definition blen (buf : list byte) : Z := Z.of_nat (length buf).

Record Uint8Array : Type := mkView {
  buffer : list byte;
  byteOffset : Z;
  viewLength : Z
}.

Definition whole (mem : list byte) : Uint8Array :=
  {| buffer := mem; byteOffset := 0; viewLength := blen mem |}.

(** [memory.subarray(begin, end)] for [0 <= begin <= end <= byteLength]. *)
Definition subarray (mem : list byte) (begin_ end_ : Z) : Uint8Array :=
  {| buffer := mem; byteOffset := begin_; viewLength := end_ - begin_ |}.

(** The elements seen through a view. *)
Definition elements (v : Uint8Array) : list byte :=
  take (Z.to_nat (viewLength v)) (drop (Z.to_nat (byteOffset v)) (buffer v)).

(** [memory.set(data, offset)]: the elements of [data] replace those of
    [memory] from [offset] on; the length of [memory] is fixed. *)
Definition set_at (mem data : list byte) (offset : Z) : list byte :=
  take (Z.to_nat offset) mem ++ data ++
  drop (Z.to_nat offset + length data) mem.

(** [memory.fill(value, start, end)]. *)
Definition fill_range (mem : list byte) (b : byte) (start end_ : Z) : list byte :=
  set_at mem (replicate (Z.to_nat (end_ - start)) b) start.

(** ** Integer conversions of the typed-array constructors *)

Definition byte_of_Z (z : Z) : byte :=
  match Byte.of_N (Z.to_N (z mod 256)) with
  | Some b => b
  | None => Byte.x00
  end.

Definition Z_of_byte (b : byte) : Z := Z.of_N (Byte.to_N b).

(** ToUint8/16/32 and ToBigUint64: reduction modulo [2^bits]. *)
Definition ToUint (bits : Z) (v : Z) : Z := v mod 2 ^ bits.

(** ToInt8/16/32 and ToBigInt64: the representative in
    [[-2^(bits-1), 2^(bits-1))]. *)
Definition ToInt (bits : Z) (v : Z) : Z :=
  let r := v mod 2 ^ bits in
  if r >=? 2 ^ (bits - 1) then r - 2 ^ bits else r.

(** The [n] low-order bytes of the two's-complement representation of [z],
    least significant first. *)
Fixpoint le_bytes (n : nat) (z : Z) : list byte :=
  match n with
  | O => []
  | S k => byte_of_Z (z mod 256) :: le_bytes k (z / 256)
  end.

Fixpoint le_decode (bs : list byte) : Z :=
  match bs with
  | [] => 0
  | b :: rest => Z_of_byte b + 256 * le_decode rest
  end.

(** Typed arrays other than [Uint8Array] lay their elements out in the byte
    order of the host. *)
Inductive endianness : Type := LittleEndian | BigEndian.

Definition native_bytes (e : endianness) (n : nat) (z : Z) : list byte :=
  match e with
  | LittleEndian => le_bytes n z
  | BigEndian => rev (le_bytes n z)
  end.

Definition native_decode (e : endianness) (bs : list byte) : Z :=
  match e with
  | LittleEndian => le_decode bs
  | BigEndian => le_decode (rev bs)
  end.

(** ** [Map<string, number>] in insertion order *)

Definition Map_get (name : string) (m : list (string * Z)) : option Z :=
  snd <$> List.find (λ p, String.eqb (fst p) name) m.

Definition Map_has (name : string) (m : list (string * Z)) : bool :=
  bool_decide (is_Some (Map_get name m)).

Definition Map_delete (name : string) (m : list (string * Z)) : list (string * Z) :=
  List.filter (λ p, negb (String.eqb (fst p) name)) m.

Fixpoint Map_set (name : string) (v : Z) (m : list (string * Z)) : list (string * Z) :=
  match m with
  | [] => [(name, v)]
  | (k, w) :: rest =>
      if String.eqb k name then (k, v) :: rest else (k, w) :: Map_set name v rest
  end.

(** ** The address space *)

Definition MAX_SAFE_INTEGER : Z := 2 ^ 53 - 1.
Definition MAX_SAFE_MEMORY_SIZE : Z := (MAX_SAFE_INTEGER - 1) / 8.

Record VirtualMemory : Type := mkVM {
  mappedAddressNames : list (string * Z);
  memory : gmap Z (list byte);
  occupiedAddresses : list Z;
  capacity : Z
}.

(** A method threads the object through and may throw; the object survives
    a throw. *)
Definition M (A : Type) : Type := VirtualMemory → completion A * VirtualMemory.

Definition ret {A} (a : A) : M A := λ s, (Return a, s).
Definition bind {A B} (m : M A) (f : A → M B) : M B :=
  λ s, match m s with
       | (Return a, s') => f a s'
       | (Throw e, s') => (Throw e, s')
       end.

#[global] Instance M_ret : MRet M := @ret.
#[global] Instance M_bind : MBind M := λ A B f m, bind m f.

Definition with_memory (m : gmap Z (list byte)) (s : VirtualMemory) : VirtualMemory :=
  {| mappedAddressNames := mappedAddressNames s; memory := m;
     occupiedAddresses := occupiedAddresses s; capacity := capacity s |}.

Definition with_names (n : list (string * Z)) (s : VirtualMemory) : VirtualMemory :=
  {| mappedAddressNames := n; memory := memory s;
     occupiedAddresses := occupiedAddresses s; capacity := capacity s |}.

(** [new VirtualMemory(capacity)] *)
Definition new (capacity : Z) : completion VirtualMemory :=
  if capacity >? MAX_SAFE_MEMORY_SIZE
  then Throw (RangeError "Memory capacity exceeds the maximum safe size")
  else Return {| mappedAddressNames := []; memory := ∅;
                 occupiedAddresses := []; capacity := capacity |}.

Definition size (s : VirtualMemory) : Z := Z.of_nat (base.size (memory s)).

(** The loop adds the [byteLength] of every block; the [instanceof] test in
    it cannot fail on a [Map<number, Uint8Array>]. *)
Definition total_bytes (m : gmap Z (list byte)) : Z :=
  map_fold (λ _ item byteLength, byteLength + blen item) 0 m.

Definition byteLength (s : VirtualMemory) : Z := total_bytes (memory s).

Definition has (address : Z) (s : VirtualMemory) : bool :=
  bool_decide (is_Some (memory s !! address)).

Definition hasVar (name : string) (s : VirtualMemory) : bool :=
  Map_has name (mappedAddressNames s).

(** [math.max(...xs)] for a non-empty [xs]. *)
Definition math_max (xs : list Z) : Z :=
  match xs with
  | [] => 0
  | x :: rest => fold_right Z.max x rest
  end.

(** The number of live addresses at or above [address]: what the probing
    loop of [alloc] has left to skip. *)
Definition live_from (m : gmap Z (list byte)) (address : Z) : nat :=
  base.size (filter (λ k, address ≤ k) (dom m)).

(** [while(this.has(address)) address++;] *)
Equations probe (m : gmap Z (list byte)) (address : Z) : Z
  by wf (live_from m address) lt :=
probe m address with inspect (m !! address) := {
  | exist _ (Some _) Hlive => probe m (address + 1)
  | exist _ None _ => address }.
Next Obligation.
  unfold live_from. apply subset_size.
  assert (address ∈ dom m) as Hdom by (apply elem_of_dom; by eexists).
  split.
  - intros k [Hk Hin]%elem_of_filter. apply elem_of_filter. split; [lia | done].
  - intros Hsub. specialize (Hsub address).
    rewrite !elem_of_filter in Hsub. destruct Hsub as [Hlt _]; [split; [lia | done] | lia].
Qed.

Definition alloc (size_ : Z) : M Z := λ s,
  if size_ <=? 0 then
    (Throw (RangeError "Memory allocation size must be greater than 0"), s)
  else if byteLength s + size_ >? capacity s then
    (Throw (RangeError "Memory allocation exceeds the memory capacity"), s)
  else
    let start :=
      if (0 <? Z.of_nat (length (occupiedAddresses s)))
      then math_max (occupiedAddresses s) + 1
      else size s in
    let address := probe (memory s) start in
    (Return address,
     with_memory (<[address := replicate (Z.to_nat size_) Byte.x00]> (memory s)) s).

Definition setVar (name : string) (address : Z) : M unit := λ s,
  if hasVar name s then (Throw (Error "Variable name already exists"), s)
  else (Return tt, with_names (Map_set name address (mappedAddressNames s)) s).

(** The loop over the names deletes the first entry, in insertion order,
    whose value is [address], and stops. *)
Definition drop_first_name (address : Z) (names : list (string * Z)) : list (string * Z) :=
  match List.find (λ p, snd p =? address) names with
  | Some (name, _) => Map_delete name names
  | None => names
  end.

Definition free (address : Z) : M bool := λ s,
  if negb (has address s) then (Return false, s)
  else
    (Return true,
     {| memory := delete address (memory s);
        occupiedAddresses :=
          List.filter (λ occupiedAddress, negb (occupiedAddress =? address))
                      (occupiedAddresses s);
        mappedAddressNames := drop_first_name address (mappedAddressNames s);
        capacity := capacity s |}).

(** [this.#mappedAddressNames.get(name) as number], used after [hasVar]. *)
Definition var_address (name : string) (s : VirtualMemory) : Z :=
  default 0 (Map_get name (mappedAddressNames s)).

Definition freeVar (name : string) : M bool := λ s,
  if negb (hasVar name s) then (Return false, s)
  else free (var_address name s) s.

Definition erase : M unit := λ s,
  (Return tt,
   {| memory := ∅; occupiedAddresses := []; mappedAddressNames := [];
      capacity := capacity s |}).

Definition read (address : Z) (length : option Z) (offset : Z)
    (s : VirtualMemory) : completion (option Uint8Array) :=
  match memory s !! address with
  | None => Return None
  | Some mem =>
      let length := default (blen mem) length in
      if (offset <? 0) || (offset >=? blen mem) then
        Throw (RangeError "Invalid memory read offset")
      else if (length <=? 0) || (offset + length >? blen mem) then
        Throw (RangeError "Invalid memory read length")
      else
        Return (Some (if (length =? blen mem) && (offset =? 0)
                      then whole mem
                      else subarray mem offset (offset + length)))
  end.

Definition readVar (name : string) (length : option Z) (offset : Z)
    (s : VirtualMemory) : completion (option Uint8Array) :=
  if negb (hasVar name s) then Return None
  else read (var_address name s) length offset s.

Definition getVarAddress (name : string) (s : VirtualMemory) : option Z :=
  if negb (hasVar name s) then None else Some (var_address name s).

(** [data] stands for the elements of the [Uint8Array] passed in; the
    [instanceof] tests cannot fail on typed arguments. *)
Definition write (address : Z) (data : list byte) (offset : Z) : M bool := λ s,
  match memory s !! address with
  | None => (Return false, s)
  | Some mem =>
      if (offset <? 0) || (offset >=? blen mem) then
        (Throw (RangeError "Invalid memory write offset"), s)
      else if (blen data <=? 0) || (offset + blen data >? blen mem) then
        (Throw (RangeError "Invalid memory write data length"), s)
      else
        (Return true, with_memory (<[address := set_at mem data offset]> (memory s)) s)
  end.

Definition writeVar (name : string) (data : list byte) (offset : Z) : M bool := λ s,
  if negb (hasVar name s) then (Return false, s)
  else write (var_address name s) data offset s.

Definition copy (srcAddress destAddress length srcOffset destOffset : Z) : M bool := λ s,
  match memory s !! srcAddress, memory s !! destAddress with
  | Some srcMemory, Some destMemory =>
      if (srcOffset <? 0) || (srcOffset >=? blen srcMemory) then
        (Throw (RangeError "Invalid memory copy source offset"), s)
      else if (destOffset <? 0) || (destOffset >=? blen destMemory) then
        (Throw (RangeError "Invalid memory copy destination offset"), s)
      else if (length <=? 0) || (srcOffset + length >? blen srcMemory)
              || (destOffset + length >? blen destMemory) then
        (Throw (RangeError "Invalid memory copy length"), s)
      else
        (Return true,
         with_memory
           (<[destAddress :=
                set_at destMemory
                       (elements (subarray srcMemory srcOffset (srcOffset + length)))
                       destOffset]> (memory s)) s)
  | _, _ => (Return false, s)
  end.

Definition copyVar (srcName destName : string) (length srcOffset destOffset : Z) : M bool := λ s,
  if negb (hasVar srcName s) || negb (hasVar destName s) then (Return false, s)
  else copy (var_address srcName s) (var_address destName s) length srcOffset destOffset s.

Definition fill (address value length offset : Z) : M bool := λ s,
  match memory s !! address with
  | None => (Return false, s)
  | Some mem =>
      if (offset <? 0) || (offset >=? blen mem) then
        (Throw (RangeError "Invalid memory fill offset"), s)
      else if (length <=? 0) || (offset + length >? blen mem) then
        (Throw (RangeError "Invalid memory fill length"), s)
      else
        (Return true,
         with_memory
           (<[address := fill_range mem (byte_of_Z value) offset (offset + length)]>
              (memory s)) s)
  end.

Definition fillVar (name : string) (value length offset : Z) : M bool := λ s,
  if negb (hasVar name s) then (Return false, s)
  else fill (var_address name s) value length offset s.

Definition clear (address length offset : Z) : M bool :=
  fill address 0 length offset.

Definition clearVar (name : string) (length offset : Z) : M bool :=
  fillVar name 0 length offset.

(** ** Scalar codec

    Each writer builds a one-element typed array from [value] and writes the
    bytes of its buffer; [host] is the byte order of the machine. *)

Section Scalar.
Variable host : endianness.

Definition writeUint8 (address value offset : Z) : M bool :=
  write address [byte_of_Z (ToUint 8 value)] offset.

Definition writeUint16 (address value offset : Z) : M bool :=
  write address (native_bytes host 2 (ToUint 16 value)) offset.

Definition writeUint32 (address value offset : Z) : M bool :=
  write address (native_bytes host 4 (ToUint 32 value)) offset.

Definition writeUint64 (address value offset : Z) : M bool :=
  write address (native_bytes host 8 (ToUint 64 value)) offset.

Definition writeInt8 (address value offset : Z) : M bool :=
  write address (native_bytes host 1 (ToInt 8 value)) offset.

Definition writeInt16 (address value offset : Z) : M bool :=
  write address (native_bytes host 2 (ToInt 16 value)) offset.

Definition writeInt32 (address value offset : Z) : M bool :=
  write address (native_bytes host 4 (ToInt 32 value)) offset.

Definition writeInt64 (address value offset : Z) : M bool :=
  write address (native_bytes host 8 (ToInt 64 value)) offset.

Definition writeBigInt64 (address value offset : Z) : M bool :=
  write address (native_bytes host 8 (ToUint 64 value)) offset.

(** [new Uint32Array(buf)[0]] for an [ArrayBuffer] of at least four bytes:
    the constructor covers the whole buffer from byte 0 and rejects a
    buffer whose length is not a multiple of the element size. *)
Definition Uint32Array_first (buf : list byte) : completion Z :=
  if blen buf mod 4 =? 0 then Return (native_decode host (take 4 buf))
  else Throw (RangeError "byte length of Uint32Array should be a multiple of 4").

(** [data.buffer] is the buffer of the block, whatever part of it [data]
    views. *)
Definition readUint32 (address offset : Z) (s : VirtualMemory) : completion Z :=
  match read address (Some 4) offset s with
  | Throw e => Throw e
  | Return None => Return 0
  | Return (Some data) => Uint32Array_first (buffer data)
  end.
End Scalar.

(** ** String codec

    [Buffer.from(value, encoding)] and [toString(encoding)] (or
    [TextEncoder] and [TextDecoder]) belong to the host; a [TextCodec] is
    one choice of encoding, used for both directions. *)

Class TextCodec : Type := {
  encodeText : string → list byte;
  decodeText : list byte → string
}.

Section StringCodec.
Context `{TextCodec}.

Definition writeString (value : string) (offset : Z) : M (option Z) :=
  let encodedValue := encodeText value in
  addr ← alloc (blen encodedValue);
  ok ← write addr encodedValue offset;
  if negb ok then mret None else mret (Some addr).

Definition readString (address : Z) (length : option Z) (offset : Z)
    (s : VirtualMemory) : completion (option string) :=
  match read address length offset s with
  | Throw e => Throw e
  | Return None => Return None
  | Return (Some data) => Return (Some (decodeText (elements data)))
  end.
End StringCodec.

(** The encoding that stores each character code in one byte. *)
#[global] Instance byte_codec : TextCodec := {|
  encodeText := String.list_byte_of_string;
  decodeText := String.string_of_list_byte
|}.

(** ** Sequences of calls

    The state-changing methods as a datatype, so that properties can be
    stated over every state a caller can bring the object to.  A caller may
    catch what a call throws and go on.  Storing into a view that [read]
    handed out changes the bytes it covers, as a [write] of the new elements
    at the offset of the view does. *)

Inductive op : Type :=
| Alloc (size_ : Z)
| SetVar (name : string) (address : Z)
| Free (address : Z)
| FreeVar (name : string)
| Erase
| Write (address : Z) (data : list byte) (offset : Z)
| WriteVar (name : string) (data : list byte) (offset : Z)
| Copy (srcAddress destAddress length srcOffset destOffset : Z)
| CopyVar (srcName destName : string) (length srcOffset destOffset : Z)
| Fill (address value length offset : Z)
| FillVar (name : string) (value length offset : Z)
| Clear (address length offset : Z)
| ClearVar (name : string) (length offset : Z)
| WriteUint8 (address value offset : Z)
| WriteUint16 (address value offset : Z)
| WriteUint32 (address value offset : Z)
| WriteUint64 (address value offset : Z)
| WriteInt8 (address value offset : Z)
| WriteInt16 (address value offset : Z)
| WriteInt32 (address value offset : Z)
| WriteInt64 (address value offset : Z)
| WriteBigInt64 (address value offset : Z).

Inductive value : Type :=
| VUndefined
| VBoolean (b : bool)
| VNumber (n : Z).

Definition fmapM {A B} (f : A → B) (m : M A) : M B := a ← m; mret (f a).

Definition call (host : endianness) (o : op) : M value :=
  match o with
  | Alloc n => fmapM VNumber (alloc n)
  | SetVar name a => fmapM (λ _, VUndefined) (setVar name a)
  | Free a => fmapM VBoolean (free a)
  | FreeVar name => fmapM VBoolean (freeVar name)
  | Erase => fmapM (λ _, VUndefined) erase
  | Write a d off => fmapM VBoolean (write a d off)
  | WriteVar name d off => fmapM VBoolean (writeVar name d off)
  | Copy sa da n so do => fmapM VBoolean (copy sa da n so do)
  | CopyVar sn dn n so do => fmapM VBoolean (copyVar sn dn n so do)
  | Fill a v n off => fmapM VBoolean (fill a v n off)
  | FillVar name v n off => fmapM VBoolean (fillVar name v n off)
  | Clear a n off => fmapM VBoolean (clear a n off)
  | ClearVar name n off => fmapM VBoolean (clearVar name n off)
  | WriteUint8 a v off => fmapM VBoolean (writeUint8 a v off)
  | WriteUint16 a v off => fmapM VBoolean (writeUint16 host a v off)
  | WriteUint32 a v off => fmapM VBoolean (writeUint32 host a v off)
  | WriteUint64 a v off => fmapM VBoolean (writeUint64 host a v off)
  | WriteInt8 a v off => fmapM VBoolean (writeInt8 host a v off)
  | WriteInt16 a v off => fmapM VBoolean (writeInt16 host a v off)
  | WriteInt32 a v off => fmapM VBoolean (writeInt32 host a v off)
  | WriteInt64 a v off => fmapM VBoolean (writeInt64 host a v off)
  | WriteBigInt64 a v off => fmapM VBoolean (writeBigInt64 host a v off)
  end.

Definition exec (host : endianness) (o : op) (s : VirtualMemory) : VirtualMemory :=
  snd (call host o s).

Definition run (host : endianness) (ops : list op) (s : VirtualMemory) : VirtualMemory :=
  fold_left (λ st o, exec host o st) ops s.

(** The states of an object built by the constructor and then only used
    through its methods. *)
Definition reachable (host : endianness) (s : VirtualMemory) : Prop :=
  ∃ cap s0 ops, new cap = Return s0 ∧ s = run host ops s0.

(** A call fails when it throws or answers [false]. *)
Definition failed (r : completion value) : bool :=
  match r with
  | Throw _ => true
  | Return (VBoolean false) => true
  | Return _ => false
  end.

(** ** [sizeof] *)

Definition sizeof (dataType : string) : completion Z :=
  if String.eqb dataType "number" then Return 8
  else if String.eqb dataType "uint32" then Return 4
  else Throw (TypeError "Invalid data type").

(** ** The changes a call can make

    [effect s s'] lists the ways in which one call takes the space from [s]
    to [s']. *)

Inductive effect (s : VirtualMemory) : VirtualMemory → Prop :=
| effect_none : effect s s
| effect_bytes (a : Z) (mem mem' : list byte) :
    memory s !! a = Some mem → length mem' = length mem →
    effect s (with_memory (<[a := mem']> (memory s)) s)
| effect_alloc (a n : Z) :
    memory s !! a = None → 0 < n → byteLength s + n ≤ capacity s →
    effect s (with_memory (<[a := replicate (Z.to_nat n) Byte.x00]> (memory s)) s)
| effect_free (a : Z) :
    is_Some (memory s !! a) →
    effect s {| memory := delete a (memory s);
                occupiedAddresses :=
                  List.filter (λ o, negb (o =? a)) (occupiedAddresses s);
                mappedAddressNames := drop_first_name a (mappedAddressNames s);
                capacity := capacity s |}
| effect_erase :
    effect s {| memory := ∅; occupiedAddresses := []; mappedAddressNames := [];
                capacity := capacity s |}
| effect_names (name : string) (a : Z) :
    hasVar name s = false →
    effect s (with_names (Map_set name a (mappedAddressNames s)) s).

(** A boolean method is well behaved when its change to the space is one of
    the above and it changes nothing unless it answers [true]. *)
Definition well_behaved (m : M bool) : Prop :=
  ∀ s, effect s (snd (m s)) ∧ (fst (m s) ≠ Return true → snd (m s) = s).

(** ** Example spaces *)

(** An empty space of 80 bytes, and the same after [alloc(4)]. *)
Definition empty80 : VirtualMemory :=
  {| mappedAddressNames := []; memory := ∅; occupiedAddresses := []; capacity := 80 |}.

Definition one_block : VirtualMemory := exec LittleEndian (Alloc 4) empty80.

(** An 8-byte block holding the 32-bit values 1 and 2, and a 5-byte block. *)
Definition two_words (host : endianness) : VirtualMemory :=
  run host [Alloc 8; WriteUint32 0 1 0; WriteUint32 0 2 4] empty80.

Definition five_bytes : VirtualMemory := exec LittleEndian (Alloc 5) empty80.

(** A space filled to its capacity by one block. *)
Definition one_block_of_80 : VirtualMemory := exec LittleEndian (Alloc 80) empty80.

(** A 4-byte block holding the letters A to D. *)
Definition abcd : VirtualMemory :=
  exec LittleEndian (Write 0 [Byte.x41; Byte.x42; Byte.x43; Byte.x44] 0) one_block.

(** One block with two names bound to it. *)
Definition two_names : VirtualMemory :=
  run LittleEndian [Alloc 10; SetVar "p" 0; SetVar "q" 0] empty80.

(** The same after [free(0)]: the name [q] is left bound to address 0. *)
Definition q_dangling : VirtualMemory := exec LittleEndian (Free 0) two_names.

(** Three allocations, the first of them freed again. *)
Definition two_of_three : VirtualMemory :=
  run LittleEndian [Alloc 10; Alloc 3; Alloc 7; Free 0] empty80.

(** * Properties *)

(** Case analysis on the integer comparisons of a guard. *)
Ltac zcmp :=
  rewrite ?Z.gtb_ltb, ?Z.geb_leb in *;
  repeat (match goal with
          | |- context [Z.ltb ?a ?b] => destruct (Z.ltb_spec a b)
          | |- context [Z.leb ?a ?b] => destruct (Z.leb_spec a b)
          | |- context [Z.eqb ?a ?b] => destruct (Z.eqb_spec a b)
          end; cbn [orb andb negb]; try lia).

(** ** Bytes and fixed-width encodings *)

Lemma Z_of_byte_range (b : byte) : 0 ≤ Z_of_byte b < 256.
Proof.
  unfold Z_of_byte. pose proof (Byte.to_N_bounded b) as Hb. lia.
Qed.

Lemma Z_of_byte_of_Z (z : Z) : Z_of_byte (byte_of_Z z) = z mod 256.
Proof.
  unfold Z_of_byte, byte_of_Z.
  pose proof (Z.mod_pos_bound z 256 eq_refl) as Hr.
  destruct (Byte.of_N (Z.to_N (z mod 256))) as [b|] eqn:Hb.
  - apply Byte.to_of_N in Hb. rewrite Hb. lia.
  - apply Byte.of_N_None_iff in Hb. lia.
Qed.

Lemma le_bytes_length (n : nat) (z : Z) : length (le_bytes n z) = n.
Proof. revert z. induction n as [|n IH]; intros z; simpl; [done | by rewrite IH]. Qed.

(** Only the residue of [z] modulo [2^(8n)] reaches its [n] low bytes. *)
Lemma le_bytes_shift (n : nat) (z c : Z) :
  le_bytes n (z + c * 2 ^ (8 * Z.of_nat n)) = le_bytes n z.
Proof.
  revert z c. induction n as [|n IH]; intros z c; [done|].
  replace (8 * Z.of_nat (S n)) with (8 * Z.of_nat n + 8) by lia.
  rewrite Z.pow_add_r by lia. change (2 ^ 8) with 256.
  rewrite Z.mul_assoc. cbn [le_bytes].
  rewrite Z_mod_plus_full, Z_div_plus_full by lia.
  by rewrite IH.
Qed.

Lemma le_bytes_mod (n : nat) (z : Z) :
  le_bytes n (z mod 2 ^ (8 * Z.of_nat n)) = le_bytes n z.
Proof.
  assert (0 < 2 ^ (8 * Z.of_nat n)) by (apply Z.pow_pos_nonneg; lia).
  rewrite Z.mod_eq by lia.
  replace (z - 2 ^ (8 * Z.of_nat n) * (z / 2 ^ (8 * Z.of_nat n)))
    with (z + (- (z / 2 ^ (8 * Z.of_nat n))) * 2 ^ (8 * Z.of_nat n)) by lia.
  apply le_bytes_shift.
Qed.

Lemma le_decode_le_bytes (n : nat) (z : Z) :
  le_decode (le_bytes n z) = z mod 2 ^ (8 * Z.of_nat n).
Proof.
  revert z. induction n as [|n IH]; intros z.
  - simpl. by rewrite Z.mod_1_r.
  - cbn [le_bytes le_decode]. rewrite Z_of_byte_of_Z, IH.
    replace (8 * Z.of_nat (S n)) with (8 + 8 * Z.of_nat n) by lia.
    rewrite Z.pow_add_r by lia. change (2 ^ 8) with 256.
    rewrite Z.rem_mul_r; [| lia | apply Z.pow_pos_nonneg; lia].
    by rewrite Z.mod_mod by lia.
Qed.

Lemma native_bytes_length (e : endianness) (n : nat) (z : Z) :
  length (native_bytes e n z) = n.
Proof. destruct e; simpl; rewrite ?length_rev; apply le_bytes_length. Qed.

Lemma native_decode_bytes (e : endianness) (n : nat) (z : Z) :
  native_decode e (native_bytes e n z) = z mod 2 ^ (8 * Z.of_nat n).
Proof.
  destruct e; simpl; rewrite ?rev_involutive; apply le_decode_le_bytes.
Qed.

(** The signed and the unsigned conversion of one width differ by a multiple
    of [2^bits], so they have the same bytes. *)
Lemma native_bytes_ToInt (e : endianness) (n : nat) (v : Z) :
  native_bytes e n (ToInt (8 * Z.of_nat n) v) =
  native_bytes e n (ToUint (8 * Z.of_nat n) v).
Proof.
  assert (le_bytes n (ToInt (8 * Z.of_nat n) v) = le_bytes n (ToUint (8 * Z.of_nat n) v)) as Heq.
  { unfold ToInt, ToUint. cbv zeta.
    destruct (_ >=? _); [|done].
    replace (v mod 2 ^ (8 * Z.of_nat n) - 2 ^ (8 * Z.of_nat n))
      with (v mod 2 ^ (8 * Z.of_nat n) + (-1) * 2 ^ (8 * Z.of_nat n)) by lia.
    apply le_bytes_shift. }
  destruct e; simpl; by rewrite Heq.
Qed.

(** ** Buffers *)

Lemma set_at_length (mem data : list byte) (offset : Z) :
  0 ≤ offset → offset + blen data ≤ blen mem →
  length (set_at mem data offset) = length mem.
Proof.
  unfold set_at, blen. intros Hoff Hfit.
  rewrite !length_app, length_take, length_drop. lia.
Qed.

Lemma set_at_elements (mem data : list byte) (offset : Z) :
  0 ≤ offset → offset + blen data ≤ blen mem →
  elements (subarray (set_at mem data offset) offset (offset + blen data)) = data.
Proof.
  unfold set_at, blen, elements, subarray. cbn [buffer byteOffset viewLength].
  intros Hoff Hfit.
  replace (offset + Z.of_nat (length data) - offset) with (Z.of_nat (length data)) by lia.
  rewrite Nat2Z.id.
  rewrite drop_app_length'; [|rewrite length_take; lia].
  by rewrite take_app_length.
Qed.

Lemma set_at_0 (mem data : list byte) :
  set_at mem data 0 = data ++ drop (length data) mem.
Proof. done. Qed.

Lemma elements_whole (mem : list byte) : elements (whole mem) = mem.
Proof.
  unfold elements, whole, blen. cbn [buffer byteOffset viewLength].
  rewrite Nat2Z.id. simpl. apply firstn_all.
Qed.

Lemma fill_range_length (mem : list byte) (b : byte) (offset length_ : Z) :
  0 ≤ offset → 0 ≤ length_ → offset + length_ ≤ blen mem →
  length (fill_range mem b offset (offset + length_)) = length mem.
Proof.
  intros Hoff Hlen Hfit. unfold fill_range. apply set_at_length; [done|].
  unfold blen in *. rewrite length_replicate. lia.
Qed.

(** ** Region I/O *)

Lemma write_live (s : VirtualMemory) (a offset : Z) (mem d : list byte) :
  memory s !! a = Some mem → 0 ≤ offset → 0 < blen d → offset + blen d ≤ blen mem →
  write a d offset s =
    (Return true, with_memory (<[a := set_at mem d offset]> (memory s)) s).
Proof.
  intros Hlive Hoff Hpos Hfit. unfold write. rewrite Hlive. by zcmp.
Qed.

Lemma read_live (s : VirtualMemory) (a offset n : Z) (mem : list byte) :
  memory s !! a = Some mem → 0 ≤ offset → 0 < n → offset + n ≤ blen mem →
  read a (Some n) offset s =
    Return (Some (if (n =? blen mem) && (offset =? 0) then whole mem
                  else subarray mem offset (offset + n))).
Proof.
  intros Hlive Hoff Hpos Hfit. unfold read. rewrite Hlive.
  cbn [from_option id].
  destruct ((offset <? 0) || (offset >=? blen mem)) eqn:G1; [exfalso; revert G1; by zcmp|].
  destruct ((n <=? 0) || (offset + n >? blen mem)) eqn:G2; [exfalso; revert G2; by zcmp|].
  done.
Qed.

(** Either way the view shows bytes [[offset, offset + n)] of the block. *)
Lemma read_view_elements (mem : list byte) (offset n : Z) :
  0 ≤ offset → 0 < n → offset + n ≤ blen mem →
  elements (if (n =? blen mem) && (offset =? 0) then whole mem
            else subarray mem offset (offset + n)) =
  take (Z.to_nat n) (drop (Z.to_nat offset) mem).
Proof.
  intros Hoff Hpos Hfit.
  destruct ((n =? blen mem) && (offset =? 0)) eqn:G.
  - apply andb_true_iff in G as [->%Z.eqb_eq ->%Z.eqb_eq].
    rewrite elements_whole. unfold blen. rewrite Nat2Z.id. simpl.
    by rewrite firstn_all.
  - unfold elements, subarray. cbn [buffer byteOffset viewLength].
    by replace (offset + n - offset) with n by lia.
Qed.

(** C1 as stated fails on the empty buffer: [write] rejects a [data] of
    length 0 although [0 <= L]. *)
Lemma write_empty_buffer_throws :
  memory one_block !! 0 = Some (replicate 4 Byte.x00) ∧
  blen [] ≤ blen (replicate 4 Byte.x00) ∧
  write 0 [] 0 one_block =
    (Throw (RangeError "Invalid memory write data length"), one_block).
Proof. vm_compute. split; [done | split; [discriminate | done]]. Qed.

(** C1 (amended): on a live address whose block has length [L], writing a
    non-empty buffer [d] with [len d <= L] at offset 0 returns [true]; the
    following read of [len d] bytes at offset 0 yields [d]; and the only
    change to the space is that the first [len d] bytes of that block are
    now [d] (same length, same tail, same other blocks, names and
    capacity). *)
Theorem write_read_roundtrip (s : VirtualMemory) (a : Z) (mem d : list byte) :
  memory s !! a = Some mem → 0 < blen d → blen d ≤ blen mem →
  ∃ s' v,
    write a d 0 s = (Return true, s') ∧
    read a (Some (blen d)) 0 s' = Return (Some v) ∧
    elements v = d ∧
    s' = with_memory (<[a := d ++ drop (length d) mem]> (memory s)) s ∧
    length (d ++ drop (length d) mem) = length mem.
Proof.
  intros Hlive Hpos Hfit.
  assert (length (set_at mem d 0) = length mem) as Hlen
    by (apply set_at_length; lia).
  eexists _, _. split; [apply write_live; [done | lia ..]|].
  rewrite <- set_at_0. split; [|split; [|done]].
  - apply read_live; [apply lookup_insert_eq | lia | lia | unfold blen in *; lia].
  - rewrite read_view_elements by (unfold blen in *; lia).
    unfold blen. rewrite Nat2Z.id, set_at_0. change (Z.to_nat 0) with 0%nat.
    by rewrite drop_0, take_app_length.
Qed.

Lemma write_read_roundtrip_witness :
  ∃ s' v,
    write 0 [Byte.x41; Byte.x42] 0 one_block = (Return true, s') ∧
    read 0 (Some (blen [Byte.x41; Byte.x42])) 0 s' = Return (Some v) ∧
    elements v = [Byte.x41; Byte.x42] ∧
    s' = with_memory (<[0 := [Byte.x41; Byte.x42] ++
                              drop (length [Byte.x41; Byte.x42]) (replicate 4 Byte.x00)]>
                        (memory one_block)) one_block ∧
    length ([Byte.x41; Byte.x42] ++
            drop (length [Byte.x41; Byte.x42]) (replicate 4 Byte.x00)) =
    length (replicate 4 Byte.x00).
Proof.
  apply (write_read_roundtrip one_block 0 (replicate 4 Byte.x00) [Byte.x41; Byte.x42]).
  - reflexivity.
  - reflexivity.
  - vm_compute. discriminate.
Defined.

(** ** The probing loop *)

Lemma live_from_next (m : gmap Z (list byte)) (address : Z) :
  is_Some (m !! address) → (live_from m (address + 1) < live_from m address)%nat.
Proof.
  intros Hlive. unfold live_from. apply subset_size.
  apply elem_of_dom in Hlive. split.
  - intros k [Hk Hin]%elem_of_filter. apply elem_of_filter. split; [lia | done].
  - intros Hsub. specialize (Hsub address).
    rewrite !elem_of_filter in Hsub. destruct Hsub as [Hlt _]; [split; [lia | done] | lia].
Qed.

(** One turn of the loop. *)
Lemma probe_step (m : gmap Z (list byte)) (address : Z) :
  probe m address =
  match m !! address with
  | Some _ => probe m (address + 1)
  | None => address
  end.
Proof.
  rewrite probe_equation_1 at 1.
  destruct (inspect (m !! address)) as [[buf|] Heq]; simpl; by rewrite Heq.
Qed.

(** The loop stops at the first address from [address] on that is not live. *)
Lemma probe_spec (m : gmap Z (list byte)) (address : Z) :
  address ≤ probe m address ∧
  m !! probe m address = None ∧
  ∀ b, address ≤ b < probe m address → is_Some (m !! b).
Proof.
  remember (live_from m address) as k eqn:Hk.
  revert address Hk. induction (lt_wf k) as [k _ IH]. intros address ->.
  rewrite probe_step. destruct (m !! address) as [buf|] eqn:Hlive.
  - destruct (IH (live_from m (address + 1))
                 (live_from_next m address (mk_is_Some _ _ Hlive))
                 (address + 1) eq_refl) as (Hge & Hfree & Hbelow).
    repeat split; [lia | done |].
    intros b Hb. destruct (decide (b = address)) as [->|Hne]; [by eexists|].
    apply Hbelow. lia.
  - repeat split; [lia | done | intros b Hb; lia].
Qed.

(** The first free address from a given start depends on the set of live
    addresses only. *)
Lemma probe_dom (m1 m2 : gmap Z (list byte)) (address : Z) :
  dom m1 = dom m2 → probe m1 address = probe m2 address.
Proof.
  intros Hdom.
  destruct (probe_spec m1 address) as (Hge1 & Hfree1 & Hbelow1).
  destruct (probe_spec m2 address) as (Hge2 & Hfree2 & Hbelow2).
  assert (∀ b, is_Some (m1 !! b) ↔ is_Some (m2 !! b)) as Hsame
    by (intros b; by rewrite <- !elem_of_dom, Hdom).
  destruct (Z.lt_trichotomy (probe m1 address) (probe m2 address)) as [Hlt|[Heq|Hgt]];
    [|done|].
  - destruct (Hbelow2 (probe m1 address)) as [x Hx]; [lia|].
    apply mk_is_Some, Hsame in Hx. rewrite Hfree1 in Hx. by destruct Hx.
  - destruct (Hbelow1 (probe m2 address)) as [x Hx]; [lia|].
    apply mk_is_Some, Hsame in Hx. rewrite Hfree2 in Hx. by destruct Hx.
Qed.

(** ** Occupied bytes *)

Lemma total_bytes_empty : total_bytes ∅ = 0.
Proof. apply map_fold_empty. Qed.

Lemma total_bytes_insert (m : gmap Z (list byte)) (a : Z) (buf : list byte) :
  m !! a = None → total_bytes (<[a := buf]> m) = total_bytes m + blen buf.
Proof.
  intros Hfree. unfold total_bytes.
  rewrite map_fold_insert_L; [done | intros; lia | done].
Qed.

Lemma total_bytes_delete (m : gmap Z (list byte)) (a : Z) (buf : list byte) :
  m !! a = Some buf → total_bytes m = total_bytes (delete a m) + blen buf.
Proof.
  intros Hlive. rewrite <- (insert_delete_id m a buf Hlive) at 1.
  apply total_bytes_insert, lookup_delete_eq.
Qed.

Lemma total_bytes_nonneg (m : gmap Z (list byte)) : 0 ≤ total_bytes m.
Proof.
  induction m as [|a buf m Hfree IH] using map_ind.
  - by rewrite total_bytes_empty.
  - rewrite total_bytes_insert by done. unfold blen. lia.
Qed.

(** Replacing a block by one of the same length keeps the total. *)
Lemma total_bytes_replace (m : gmap Z (list byte)) (a : Z) (buf buf' : list byte) :
  m !! a = Some buf → length buf' = length buf →
  total_bytes (<[a := buf']> m) = total_bytes m.
Proof.
  intros Hlive Hlen. rewrite (total_bytes_delete m a buf Hlive).
  rewrite <- insert_delete_eq.
  rewrite total_bytes_insert by apply lookup_delete_eq.
  unfold blen. by rewrite Hlen.
Qed.

(** ** What one call can do to the space *)

Lemma write_well_behaved (a : Z) (d : list byte) (offset : Z) :
  well_behaved (write a d offset).
Proof.
  intros s. unfold write. destruct (memory s !! a) as [mem|] eqn:Hlive;
    [|split; [constructor | done]].
  destruct ((offset <? 0) || (offset >=? blen mem)) eqn:G1;
    [split; [constructor | done]|].
  destruct ((blen d <=? 0) || (offset + blen d >? blen mem)) eqn:G2;
    [split; [constructor | done]|].
  split; [|done]. cbn [snd]. eapply effect_bytes; [done|].
  apply set_at_length; revert G1 G2; zcmp; done.
Qed.

Lemma fill_well_behaved (a v n offset : Z) : well_behaved (fill a v n offset).
Proof.
  intros s. unfold fill. destruct (memory s !! a) as [mem|] eqn:Hlive;
    [|split; [constructor | done]].
  destruct ((offset <? 0) || (offset >=? blen mem)) eqn:G1;
    [split; [constructor | done]|].
  destruct ((n <=? 0) || (offset + n >? blen mem)) eqn:G2;
    [split; [constructor | done]|].
  split; [|done]. cbn [snd]. eapply effect_bytes; [done|].
  apply fill_range_length; revert G1 G2; zcmp; done.
Qed.

Lemma copy_well_behaved (sa da n so do : Z) : well_behaved (copy sa da n so do).
Proof.
  intros s. unfold copy.
  destruct (memory s !! sa) as [src|] eqn:Hsrc; [|split; [constructor | done]].
  destruct (memory s !! da) as [dst|] eqn:Hdst; [|split; [constructor | done]].
  destruct ((so <? 0) || (so >=? blen src)) eqn:G1; [split; [constructor | done]|].
  destruct ((do <? 0) || (do >=? blen dst)) eqn:G2; [split; [constructor | done]|].
  destruct ((n <=? 0) || (so + n >? blen src) || (do + n >? blen dst)) eqn:G3;
    [split; [constructor | done]|].
  split; [|done]. cbn [snd]. eapply effect_bytes; [done|].
  assert (0 ≤ so ∧ 0 ≤ do ∧ 0 < n ∧ so + n ≤ blen src ∧ do + n ≤ blen dst)
    as (? & ? & ? & ? & ?) by (revert G1 G2 G3; zcmp; done).
  apply set_at_length; [done|].
  unfold elements, subarray, blen in *. cbn [buffer byteOffset viewLength].
  rewrite length_take, length_drop. lia.
Qed.

Lemma free_well_behaved (a : Z) : well_behaved (free a).
Proof.
  intros s. unfold free, has. case_bool_decide as Hlive; cbn [negb].
  - split; [|done]. by apply effect_free.
  - split; [constructor | done].
Qed.

Lemma guarded_well_behaved (guard : VirtualMemory → bool) (m : VirtualMemory → M bool) :
  (∀ s, well_behaved (m s)) →
  well_behaved (λ s, if guard s then (Return false, s) else m s s).
Proof.
  intros Hm s. destruct (guard s); [split; [constructor | done] | apply Hm].
Qed.

Lemma alloc_cases (n : Z) (s : VirtualMemory) :
  (∃ e, alloc n s = (Throw e, s)) ∨
  (0 < n ∧ byteLength s + n ≤ capacity s ∧
   ∃ a, memory s !! a = None ∧
        alloc n s =
          (Return a,
           with_memory (<[a := replicate (Z.to_nat n) Byte.x00]> (memory s)) s)).
Proof.
  unfold alloc. destruct (n <=? 0) eqn:G1; [left; by eexists|].
  destruct (byteLength s + n >? capacity s) eqn:G2; [left; by eexists|].
  right. split; [revert G1; zcmp; done|]. split; [revert G2; zcmp; done|].
  eexists. split; [|done]. apply probe_spec.
Qed.

Lemma Var_forms_well_behaved :
  (∀ name, well_behaved (freeVar name)) ∧
  (∀ name d offset, well_behaved (writeVar name d offset)) ∧
  (∀ sn dn n so do, well_behaved (copyVar sn dn n so do)) ∧
  (∀ name v n offset, well_behaved (fillVar name v n offset)) ∧
  (∀ name n offset, well_behaved (clearVar name n offset)).
Proof.
  assert (∀ name v n offset, well_behaved (fillVar name v n offset)) as Hfill.
  { intros name v n offset.
    apply (guarded_well_behaved (λ s, negb (hasVar name s))
             (λ s, fill (var_address name s) v n offset)).
    intros s. apply fill_well_behaved. }
  split; [|split; [|split; [|split]]]; [| | |done|].
  - intros name.
    apply (guarded_well_behaved (λ s, negb (hasVar name s))
             (λ s, free (var_address name s))).
    intros s. apply free_well_behaved.
  - intros name d offset.
    apply (guarded_well_behaved (λ s, negb (hasVar name s))
             (λ s, write (var_address name s) d offset)).
    intros s. apply write_well_behaved.
  - intros sn dn n so do.
    apply (guarded_well_behaved (λ s, negb (hasVar sn s) || negb (hasVar dn s))
             (λ s, copy (var_address sn s) (var_address dn s) n so do)).
    intros s. apply copy_well_behaved.
  - intros name n offset. apply Hfill.
Qed.

Lemma boolean_call (m : M bool) (s : VirtualMemory) :
  well_behaved m →
  effect s (snd (fmapM VBoolean m s)) ∧
  (failed (fst (fmapM VBoolean m s)) = true → snd (fmapM VBoolean m s) = s).
Proof.
  intros Hm. destruct (Hm s) as [Heff Hfail].
  unfold fmapM, mbind, M_bind, bind, mret, M_ret, ret.
  destruct (m s) as [[[|]|e] s']; cbn [fst snd failed] in *;
    (split; [done|]); intros Hf; try discriminate; by apply Hfail.
Qed.

(** Every call changes the space in one of the ways of [effect], and a call
    of a method of the class that fails changes nothing. *)
Lemma call_effect (host : endianness) (o : op) (s : VirtualMemory) :
  effect s (exec host o s) ∧
  (failed (fst (call host o s)) = true → exec host o s = s).
Proof.
  destruct Var_forms_well_behaved as (HfreeVar & HwriteVar & HcopyVar & HfillVar & HclearVar).
  unfold exec.
  destruct o; cbn [call];
    try (apply boolean_call;
         first [ apply write_well_behaved | apply fill_well_behaved
               | apply copy_well_behaved | apply free_well_behaved
               | apply HfreeVar | apply HwriteVar | apply HcopyVar
               | apply HfillVar | apply HclearVar ]).
  - (* alloc *)
    unfold fmapM, mbind, M_bind, bind, mret, M_ret, ret.
    destruct (alloc_cases size_ s) as [[e ->]|(Hpos & Hfit & a & Hfree & ->)];
      cbn [fst snd failed]; [split; [constructor | done]|].
    split; [by apply effect_alloc | done].
  - (* setVar *)
    unfold fmapM, mbind, M_bind, bind, mret, M_ret, ret, setVar.
    destruct (hasVar name s) eqn:Hbound; cbn [fst snd failed];
      [split; [constructor | done]|].
    split; [by apply effect_names | done].
  - (* erase *)
    unfold fmapM, mbind, M_bind, bind, mret, M_ret, ret, erase.
    cbn [fst snd failed]. split; [apply effect_erase | done].
Qed.

(** ** Invariants of the space *)

Lemma effect_capacity (s s' : VirtualMemory) : effect s s' → capacity s' = capacity s.
Proof. by destruct 1. Qed.

Lemma effect_occupied (s s' : VirtualMemory) :
  effect s s' → occupiedAddresses s = [] → occupiedAddresses s' = [].
Proof. destruct 1; cbn; intros Hocc; rewrite ?Hocc; done. Qed.

Lemma effect_byteLength (s s' : VirtualMemory) :
  effect s s' → byteLength s ≤ capacity s → byteLength s' ≤ capacity s'.
Proof.
  unfold byteLength.
  destruct 1 as [|a mem mem' Hlive Hlen|a n Hfree Hpos Hfit|a [mem Hlive]| |];
    cbn [memory capacity with_memory with_names]; intros Hinv; try done.
  - by rewrite (total_bytes_replace _ _ mem).
  - rewrite total_bytes_insert by done. unfold blen, byteLength in *.
    rewrite length_replicate. lia.
  - rewrite (total_bytes_delete _ _ _ Hlive) in Hinv. unfold blen in *. lia.
  - rewrite total_bytes_empty. pose proof (total_bytes_nonneg (memory s)). lia.
Qed.

(** A block that is live before and after a call has kept its length. *)
Lemma effect_length (s s' : VirtualMemory) (b : Z) (buf buf' : list byte) :
  effect s s' → memory s !! b = Some buf → memory s' !! b = Some buf' →
  length buf' = length buf.
Proof.
  destruct 1 as [|a mem mem' Hlive Hlen|a n Hfree Hpos Hfit|a _| |];
    cbn [memory with_memory with_names]; intros Hb Hb'.
  - congruence.
  - destruct (decide (a = b)) as [->|Hne].
    + rewrite lookup_insert_eq in Hb'. congruence.
    + rewrite lookup_insert_ne in Hb' by done. congruence.
  - destruct (decide (a = b)) as [->|Hne]; [congruence|].
    rewrite lookup_insert_ne in Hb' by done. congruence.
  - destruct (decide (a = b)) as [->|Hne].
    + by rewrite lookup_delete_eq in Hb'.
    + rewrite lookup_delete_ne in Hb' by done. congruence.
  - by rewrite lookup_empty in Hb'.
  - congruence.
Qed.

Lemma run_app (host : endianness) (ops1 ops2 : list op) (s : VirtualMemory) :
  run host (ops1 ++ ops2) s = run host ops2 (run host ops1 s).
Proof. apply fold_left_app. Qed.

(** Induction over the calls made so far. *)
Lemma run_ind (host : endianness) (P : VirtualMemory → Prop) (s0 : VirtualMemory) :
  P s0 → (∀ s s', P s → effect s s' → P s') → ∀ ops, P (run host ops s0).
Proof.
  intros H0 Hstep ops. induction ops as [|o ops IH] using rev_ind; [done|].
  rewrite run_app. cbn. eapply Hstep; [done | apply call_effect].
Qed.

Lemma new_empty (cap : Z) (s0 : VirtualMemory) :
  new cap = Return s0 →
  s0 = {| mappedAddressNames := []; memory := ∅; occupiedAddresses := [];
          capacity := cap |}.
Proof. unfold new. destruct (cap >? _); congruence. Qed.

(** Nothing ever appends to the list of occupied addresses. *)
Lemma reachable_occupied (host : endianness) (s : VirtualMemory) :
  reachable host s → occupiedAddresses s = [].
Proof.
  intros (cap & s0 & ops & Hnew & ->). apply new_empty in Hnew as ->.
  apply run_ind; [done|]. intros s s' Hs Heff. by apply (effect_occupied s).
Qed.

(** C3 as stated fails for a space built with a negative capacity, which the
    constructor accepts: no bytes are occupied, and that is already more
    than the capacity. *)
Lemma negative_capacity_exceeded :
  ∃ s0, new (-1) = Return s0 ∧
        capacity (run LittleEndian [] s0) < byteLength (run LittleEndian [] s0).
Proof. eexists. split; [reflexivity | by vm_compute]. Qed.

(** C3 (amended): in a space built with a capacity of at least 0, after any
    sequence of calls the lengths of the live blocks add up to at most that
    capacity, which never changes; [alloc] returns an address only when the
    occupied bytes plus the requested size fit; and no call changes the
    length of a block that it leaves live. *)
Theorem capacity_invariant (host : endianness) (cap : Z) (s0 : VirtualMemory)
    (ops : list op) :
  new cap = Return s0 → 0 ≤ cap →
  let s := run host ops s0 in
  capacity s = cap ∧
  byteLength s ≤ cap ∧
  (∀ n a s', alloc n s = (Return a, s') → byteLength s + n ≤ cap) ∧
  (∀ o b buf buf',
     memory s !! b = Some buf → memory (exec host o s) !! b = Some buf' →
     length buf' = length buf).
Proof.
  intros Hnew Hcap s.
  assert (capacity s = cap ∧ byteLength s ≤ capacity s) as [Hc Hb].
  { subst s. apply new_empty in Hnew as ->. apply run_ind.
    - split; [done|]. unfold byteLength. cbn. by rewrite total_bytes_empty.
    - intros s s' [Hc Hb] Heff. split.
      + by rewrite (effect_capacity s s').
      + by apply (effect_byteLength s). }
  split; [done|]. split; [lia|]. split.
  - intros n a s' Halloc.
    destruct (alloc_cases n s) as [[e He]|(_ & Hfit & _)]; [congruence | lia].
  - intros o b buf buf'. apply effect_length, call_effect.
Qed.

Lemma capacity_invariant_witness :
  let s := run LittleEndian [Alloc 10; Alloc 30; Free 0; Alloc 40; Write 1 [Byte.x01] 3]
               empty80 in
  capacity s = 80 ∧
  byteLength s ≤ 80 ∧
  (∀ n a s', alloc n s = (Return a, s') → byteLength s + n ≤ 80) ∧
  (∀ o b buf buf',
     memory s !! b = Some buf → memory (exec LittleEndian o s) !! b = Some buf' →
     length buf' = length buf).
Proof.
  apply (capacity_invariant LittleEndian 80 empty80).
  - reflexivity.
  - lia.
Defined.

(** ** Address selection *)

Lemma alloc_reachable (host : endianness) (s : VirtualMemory) (n : Z) :
  reachable host s → 0 < n → byteLength s + n ≤ capacity s →
  alloc n s =
    (Return (probe (memory s) (size s)),
     with_memory (<[probe (memory s) (size s) := replicate (Z.to_nat n) Byte.x00]>
                    (memory s)) s).
Proof.
  intros Hreach Hpos Hfit. unfold alloc.
  rewrite (reachable_occupied host s Hreach). cbn [length].
  by zcmp.
Qed.

(** C2: in any state the object can be in, [alloc(n)] with [n > 0] fitting
    under the capacity returns the least address that is at least the
    number of live blocks and is not live (so it is not negative), and
    inserts a zeroed block of [n] bytes there.  The list of occupied
    addresses is empty in every such state, and two states with the same
    live addresses get the same address. *)
Theorem alloc_address (host : endianness) (s : VirtualMemory) (n : Z) :
  reachable host s → 0 < n → byteLength s + n ≤ capacity s →
  ∃ a,
    alloc n s =
      (Return a,
       with_memory (<[a := replicate (Z.to_nat n) Byte.x00]> (memory s)) s) ∧
    0 ≤ a ∧ size s ≤ a ∧
    memory s !! a = None ∧
    (∀ b, size s ≤ b < a → is_Some (memory s !! b)) ∧
    occupiedAddresses s = [] ∧
    (∀ s2 n2,
       reachable host s2 → dom (memory s2) = dom (memory s) →
       0 < n2 → byteLength s2 + n2 ≤ capacity s2 →
       fst (alloc n2 s2) = Return a).
Proof.
  intros Hreach Hpos Hfit.
  destruct (probe_spec (memory s) (size s)) as (Hge & Hfree & Hbelow).
  exists (probe (memory s) (size s)).
  split; [by apply (alloc_reachable host)|].
  split; [unfold size in *; lia|].
  split; [done|]. split; [done|]. split; [done|].
  split; [by apply (reachable_occupied host)|].
  intros s2 n2 Hreach2 Hdom Hpos2 Hfit2.
  rewrite (alloc_reachable host) by done. cbn [fst]. f_equal.
  rewrite (probe_dom _ _ _ Hdom). f_equal.
  unfold size. by rewrite <- !size_dom, Hdom.
Qed.

Lemma alloc_address_witness :
  ∃ a,
    alloc 5 two_of_three =
      (Return a,
       with_memory (<[a := replicate (Z.to_nat 5) Byte.x00]> (memory two_of_three))
                   two_of_three) ∧
    0 ≤ a ∧ size two_of_three ≤ a ∧
    memory two_of_three !! a = None ∧
    (∀ b, size two_of_three ≤ b < a → is_Some (memory two_of_three !! b)) ∧
    occupiedAddresses two_of_three = [] ∧
    (∀ s2 n2,
       reachable LittleEndian s2 → dom (memory s2) = dom (memory two_of_three) →
       0 < n2 → byteLength s2 + n2 ≤ capacity s2 →
       fst (alloc n2 s2) = Return a).
Proof.
  apply (alloc_address LittleEndian two_of_three 5).
  - exists 80, empty80, [Alloc 10; Alloc 3; Alloc 7; Free 0]. split; reflexivity.
  - lia.
  - vm_compute. discriminate.
Defined.

(** In that state the blocks at 1 and 2 are live and two blocks are counted,
    so the loop skips 2 and settles on 3. *)
Example alloc_two_of_three : fst (alloc 5 two_of_three) = Return 3.
Proof. reflexivity. Qed.

(** ** Names *)

Lemma find_first {A} (f : A → bool) (l : list A) :
  match List.find f l with
  | Some x => ∃ l1 l2, l = l1 ++ x :: l2 ∧ f x = true ∧ Forall (λ y, f y = false) l1
  | None => Forall (λ y, f y = false) l
  end.
Proof.
  induction l as [|y l IH]; cbn; [constructor|].
  destruct (f y) eqn:Hy.
  - by exists [], l.
  - destruct (List.find f l) as [x|].
    + destruct IH as (l1 & l2 & -> & Hx & Hl1).
      exists (y :: l1), l2. by repeat constructor.
    + by constructor.
Qed.

Lemma Map_delete_absent (name : string) (m : list (string * Z)) :
  name ∉ m.*1 → Map_delete name m = m.
Proof.
  unfold Map_delete.
  induction m as [|[k v] m IH]; [done|]. cbn. intros Hnot.
  apply not_elem_of_cons in Hnot as [Hne Hnot].
  destruct (String.eqb_spec k name) as [->|_]; [done|]. cbn. by rewrite IH.
Qed.

Lemma Map_delete_keys (name k : string) (m : list (string * Z)) :
  k ∈ (Map_delete name m).*1 → k ∈ m.*1.
Proof.
  unfold Map_delete.
  induction m as [|[k' v] m IH]; [done|]. cbn.
  destruct (negb (String.eqb k' name)); cbn.
  - intros [->|Hin]%elem_of_cons; [left | right; by apply IH].
  - intros Hin. right. by apply IH.
Qed.

Lemma Map_delete_distinct (name : string) (m : list (string * Z)) :
  NoDup m.*1 → NoDup (Map_delete name m).*1.
Proof.
  induction m as [|[k v] m IH]; [done|]. cbn.
  intros [Hnot Hnd]%NoDup_cons.
  change (Map_delete name ((k, v) :: m))
    with (if negb (String.eqb k name) then (k, v) :: Map_delete name m
          else Map_delete name m).
  destruct (negb (String.eqb k name)); [|by apply IH].
  cbn. apply NoDup_cons. split; [|by apply IH].
  intros Hin. by apply Hnot, (Map_delete_keys name).
Qed.

(** With distinct keys, deleting a key takes out its one entry. *)
Lemma Map_delete_middle (name : string) (v : Z) (l1 l2 : list (string * Z)) :
  NoDup (l1 ++ (name, v) :: l2).*1 →
  Map_delete name (l1 ++ (name, v) :: l2) = l1 ++ l2.
Proof.
  rewrite fmap_app, fmap_cons. cbn [fst].
  intros (Hl1 & Hmid & Hl2)%NoDup_app.
  apply NoDup_cons in Hl2 as [Hnot2 _].
  unfold Map_delete. rewrite List.filter_app. cbn.
  rewrite String.eqb_refl. cbn.
  fold (Map_delete name l1). fold (Map_delete name l2).
  rewrite !Map_delete_absent; [done | done |].
  intros Hin. by apply (Hmid name); [|left].
Qed.

Lemma Map_get_absent (name : string) (m : list (string * Z)) :
  name ∉ m.*1 → Map_get name m = None.
Proof.
  induction m as [|[k v] m IH]; [done|]. cbn. intros Hnot.
  apply not_elem_of_cons in Hnot as [Hne Hnot].
  unfold Map_get in *. cbn.
  destruct (String.eqb_spec k name) as [->|_]; [done|]. by apply IH.
Qed.

Lemma Map_set_fresh (name : string) (v : Z) (m : list (string * Z)) :
  Map_has name m = false → Map_set name v m = m ++ [(name, v)] ∧ name ∉ m.*1.
Proof.
  unfold Map_has, Map_get.
  induction m as [|[k w] m IH]; cbn; [intros _; split; [done | apply not_elem_of_nil]|].
  destruct (String.eqb_spec k name) as [->|Hne]; cbn.
  - done.
  - intros Hhas. destruct (IH Hhas) as [-> Hnot]. split; [done|].
    apply not_elem_of_cons. split; [congruence | done].
Qed.

Lemma effect_names_distinct (s s' : VirtualMemory) :
  effect s s' → NoDup (mappedAddressNames s).*1 → NoDup (mappedAddressNames s').*1.
Proof.
  destruct 1 as [| | |a _| |name a Hfresh]; cbn; try done.
  - intros Hnd. unfold drop_first_name.
    destruct (List.find _ _) as [[name v]|]; [|done].
    by apply Map_delete_distinct.
  - intros _. constructor.
  - intros Hnd. destruct (Map_set_fresh name a _ Hfresh) as [-> Hnot].
    rewrite fmap_app. apply NoDup_app. split; [done|]. split.
    + cbn. intros x Hx ->%list_elem_of_singleton. done.
    + cbn. apply NoDup_singleton.
Qed.

(** The names of an object used through its methods have distinct keys. *)
Lemma reachable_names_distinct (host : endianness) (s : VirtualMemory) :
  reachable host s → NoDup (mappedAddressNames s).*1.
Proof.
  intros (cap & s0 & ops & Hnew & ->). apply new_empty in Hnew as ->.
  apply run_ind; [constructor|]. intros s s' Hs Heff.
  by apply (effect_names_distinct s).
Qed.

(** What the loop of [free] does to the names: nothing when no name is bound
    to [a], else the first such entry goes and every other entry stays. *)
Lemma drop_first_name_spec (a : Z) (names : list (string * Z)) :
  NoDup names.*1 →
  (Forall (λ p, p.2 ≠ a) names ∧ drop_first_name a names = names) ∨
  (∃ l1 name l2,
     names = l1 ++ (name, a) :: l2 ∧ Forall (λ p, p.2 ≠ a) l1 ∧
     drop_first_name a names = l1 ++ l2).
Proof.
  intros Hnd. unfold drop_first_name.
  pose proof (find_first (λ p : string * Z, p.2 =? a) names) as Hfind.
  destruct (List.find _ names) as [[name v]|].
  - destruct Hfind as (l1 & l2 & -> & Hv%Z.eqb_eq & Hl1). cbn in Hv. subst v. right.
    exists l1, name, l2. split; [done|]. split.
    + eapply Forall_impl; [done|]. intros p Hp. cbn in Hp. by apply Z.eqb_neq.
    + by apply Map_delete_middle.
  - left. split; [|done].
    eapply Forall_impl; [done|]. intros p Hp. cbn in Hp. by apply Z.eqb_neq.
Qed.

(** ** Freeing *)

(** C7: [free(a)] on an address that is not live returns [false], throws
    nothing and changes nothing.  On a live address it returns [true] and
    removes the block; of the names, it removes the first entry bound to
    [a], if there is one, and leaves every other entry, also those bound to
    [a], where it was; a second [free(a)] then returns [false]. *)
Theorem free_spec (s : VirtualMemory) (a : Z) :
  NoDup (mappedAddressNames s).*1 →
  match memory s !! a with
  | None => free a s = (Return false, s)
  | Some _ =>
      ∃ s',
        free a s = (Return true, s') ∧
        memory s' = delete a (memory s) ∧
        capacity s' = capacity s ∧
        free a s' = (Return false, s') ∧
        ((Forall (λ p, p.2 ≠ a) (mappedAddressNames s) ∧
          mappedAddressNames s' = mappedAddressNames s) ∨
         (∃ l1 name l2,
            mappedAddressNames s = l1 ++ (name, a) :: l2 ∧
            Forall (λ p, p.2 ≠ a) l1 ∧
            mappedAddressNames s' = l1 ++ l2))
  end.
Proof.
  intros Hnd. destruct (memory s !! a) as [mem|] eqn:Hlive.
  - eexists. unfold free at 1, has. rewrite Hlive.
    rewrite bool_decide_eq_true_2 by by eexists. cbn [negb].
    split; [done|]. split; [done|]. split; [done|]. split.
    + unfold free, has. cbn [memory]. rewrite lookup_delete_eq.
      rewrite bool_decide_eq_false_2 by by intros [? ?]. done.
    + cbn [mappedAddressNames]. by apply drop_first_name_spec.
  - unfold free, has. rewrite Hlive.
    rewrite bool_decide_eq_false_2 by by intros [? ?]. done.
Qed.

Lemma free_spec_witness :
  ∃ s',
    free 0 two_names = (Return true, s') ∧
    memory s' = delete 0 (memory two_names) ∧
    capacity s' = capacity two_names ∧
    free 0 s' = (Return false, s') ∧
    ((Forall (λ p, p.2 ≠ 0) (mappedAddressNames two_names) ∧
      mappedAddressNames s' = mappedAddressNames two_names) ∨
     (∃ l1 name l2,
        mappedAddressNames two_names = l1 ++ (name, 0) :: l2 ∧
        Forall (λ p, p.2 ≠ 0) l1 ∧
        mappedAddressNames s' = l1 ++ l2)).
Proof.
  apply (free_spec two_names 0).
  apply (bool_decide_unpack _). by vm_compute.
Defined.

(** With [p] and [q] both bound to address 0, [free(0)] takes [p] away and
    leaves [q] dangling. *)
Example free_two_names :
  mappedAddressNames two_names = [("p", 0); ("q", 0)] ∧
  mappedAddressNames (snd (free 0 two_names)) = [("q", 0)].
Proof. by vm_compute. Qed.

(** ** Scalar codec *)

(** What [readUint32] computes on a live block when the four bytes asked for
    lie inside it: [offset] only takes part in the bounds check. *)
Lemma readUint32_live (host : endianness) (s : VirtualMemory) (a offset : Z)
    (mem : list byte) :
  memory s !! a = Some mem → 0 ≤ offset → offset + 4 ≤ blen mem →
  readUint32 host a offset s =
    if blen mem mod 4 =? 0 then Return (native_decode host (take 4 mem))
    else Throw (RangeError "byte length of Uint32Array should be a multiple of 4").
Proof.
  intros Hlive Hoff Hfit. unfold readUint32.
  rewrite (read_live s a offset 4 mem) by (done || lia).
  unfold Uint32Array_first. by destruct (_ && _).
Qed.

(** At offset 0 of a block whose length is a multiple of 4 the value written
    by [writeUint32] is read back. *)
Lemma writeUint32_readUint32_aligned (host : endianness) (s : VirtualMemory)
    (a v : Z) (mem : list byte) :
  memory s !! a = Some mem → 4 ≤ blen mem → blen mem mod 4 = 0 →
  ∃ s', writeUint32 host a v 0 s = (Return true, s') ∧
        readUint32 host a 0 s' = Return (v mod 2 ^ 32).
Proof.
  intros Hlive Hfit Hmult.
  assert (blen (native_bytes host 4 (ToUint 32 v)) = 4) as Hlen
    by (unfold blen; by rewrite native_bytes_length).
  eexists. split.
  - unfold writeUint32. apply write_live; [done | lia ..].
  - assert (length (set_at mem (native_bytes host 4 (ToUint 32 v)) 0) = length mem)
      as Hlen' by (apply set_at_length; lia).
    rewrite (readUint32_live host _ a 0 (set_at mem (native_bytes host 4 (ToUint 32 v)) 0));
      [|apply lookup_insert_eq | lia | unfold blen in *; lia].
    unfold blen in *. rewrite Hlen', Hmult. cbn [Z.eqb]. f_equal.
    rewrite set_at_0.
    replace 4%nat with (length (native_bytes host 4 (ToUint 32 v))) at 1
      by apply native_bytes_length.
    rewrite take_app_length, native_decode_bytes. unfold ToUint.
    change (8 * Z.of_nat 4) with 32. apply Z.mod_mod. lia.
Qed.

(** C4, the code at two inputs the claim covers.  With 1 written at offset 0
    and 2 at offset 4 of an 8-byte block, bytes [[4, 8)] hold 2, yet
    [readUint32(0, 4)] answers 1.  And on a 5-byte block [readUint32(0, 0)]
    throws after [writeUint32(0, 7, 0)] succeeded. *)
Theorem readUint32_ignores_offset (host : endianness) :
  (∃ v, read 0 (Some 4) 4 (two_words host) = Return (Some v) ∧
        native_decode host (elements v) = 2) ∧
  readUint32 host 0 4 (two_words host) = Return 1 ∧
  fst (writeUint32 host 0 7 0 five_bytes) = Return true ∧
  readUint32 host 0 0 (exec host (WriteUint32 0 7 0) five_bytes) =
    Throw (RangeError "byte length of Uint32Array should be a multiple of 4").
Proof.
  destruct host; (split; [eexists; split; reflexivity|]); repeat split.
Qed.

(** C5 as stated fails when the read has a bounds issue: nothing turns the
    range error of [read] into [null], and [readUint32] throws it on. *)
Lemma readUint32_bounds_throws :
  is_Some (memory one_block !! 0) ∧
  (∀ v, read 0 (Some 4) 2 one_block ≠ Return (Some v)) ∧
  readUint32 LittleEndian 0 2 one_block =
    Throw (RangeError "Invalid memory read length") ∧
  readUint32 LittleEndian 0 2 one_block ≠ Return 0.
Proof. repeat split; [by eexists | done | done]. Qed.

(** C5 (amended): the read of 4 bytes returns [null] exactly when the
    address is not live, and then [readUint32] returns 0 and throws
    nothing, as it also does for a stored zero; when the read throws (the
    address is live and the offset or length is out of bounds),
    [readUint32] throws the same error. *)
Theorem readUint32_failed_read (host : endianness) (s : VirtualMemory)
    (a offset : Z) :
  match read a (Some 4) offset s with
  | Return None => memory s !! a = None ∧ readUint32 host a offset s = Return 0
  | Throw e => is_Some (memory s !! a) ∧ readUint32 host a offset s = Throw e
  | Return (Some _) => is_Some (memory s !! a)
  end.
Proof.
  unfold readUint32, read.
  destruct (memory s !! a) as [mem|]; [|done].
  cbn [from_option id].
  destruct (_ || _); [by split; [eexists|]|].
  destruct (_ || _); [by split; [eexists|]|by eexists].
Qed.

(** A stored zero and an address that is not live give the same answer. *)
Example readUint32_zero_twice :
  readUint32 LittleEndian 0 0 one_block = Return 0 ∧
  readUint32 LittleEndian 7 0 one_block = Return 0.
Proof. by vm_compute. Qed.

(** C9: [writeInt64] and [writeBigInt64] are the same function of the
    space: for every address, value and offset they write the same eight
    bytes, those of the value reduced modulo [2^64], and give the same
    result and the same space. *)
Theorem writeInt64_writeBigInt64 (host : endianness) (a v offset : Z)
    (s : VirtualMemory) :
  native_bytes host 8 (ToInt 64 v) = native_bytes host 8 (v mod 2 ^ 64) ∧
  writeInt64 host a v offset s = writeBigInt64 host a v offset s.
Proof.
  assert (native_bytes host 8 (ToInt 64 v) = native_bytes host 8 (ToUint 64 v))
    as Hbytes by apply (native_bytes_ToInt host 8 v).
  split; [done|]. unfold writeInt64, writeBigInt64. by rewrite Hbytes.
Qed.

Example writeInt64_minus_one :
  native_bytes LittleEndian 8 (ToInt 64 (-1)) = replicate 8 Byte.xff ∧
  native_bytes LittleEndian 8 (ToUint 64 (-1)) = replicate 8 Byte.xff.
Proof. by vm_compute. Qed.

(** ** String codec *)

Section StringCodecProperties.
Context `{TextCodec}.

Lemma writeString_alloc_throws (v : string) (offset : Z) (s : VirtualMemory) (e : exn) :
  alloc (blen (encodeText v)) s = (Throw e, s) →
  writeString v offset s = (Throw e, s).
Proof.
  intros Halloc. unfold writeString, mbind, M_bind, bind. by rewrite Halloc.
Qed.

(** On the space, [writeString] acts as [alloc], followed by [write] when
    [alloc] returned; so it leads from reachable states to reachable
    states. *)
Lemma writeString_reachable (host : endianness) (v : string) (offset : Z)
    (s : VirtualMemory) :
  reachable host s → reachable host (snd (writeString v offset s)).
Proof.
  intros (cap & s0 & ops & Hnew & ->).
  assert (∃ more, snd (writeString v offset (run host ops s0)) =
                  run host more (run host ops s0)) as [more ->].
  { unfold writeString, mbind, M_bind, bind.
    destruct (alloc (blen (encodeText v)) (run host ops s0)) as [[addr|e] s1] eqn:Halloc.
    - exists [Alloc (blen (encodeText v)); Write addr (encodeText v) offset].
      cbn. unfold exec at 2. cbn [call]. unfold fmapM, mbind, M_bind, bind.
      rewrite Halloc. cbn [mret M_ret ret snd].
      unfold exec. cbn [call]. unfold fmapM, mbind, M_bind, bind.
      by destruct (write addr (encodeText v) offset s1) as [[[|]|e] s2].
    - exists []. destruct (alloc_cases (blen (encodeText v)) (run host ops s0))
        as [[e' He]|(_ & _ & a & _ & Ha)]; [|congruence].
      rewrite Halloc in He. by inversion He. }
  exists cap, s0, (ops ++ more). split; [done|]. by rewrite run_app.
Qed.

(** C10: when the encoder gives no bytes for the empty string,
    [writeString] of the empty string throws the size error of [alloc],
    whatever the state and the offset; it returns neither an address nor
    [null], and the space is as before. *)
Theorem writeString_empty (s : VirtualMemory) (offset : Z) :
  blen (encodeText "") = 0 →
  writeString "" offset s =
    (Throw (RangeError "Memory allocation size must be greater than 0"), s).
Proof.
  intros Hlen. apply writeString_alloc_throws. unfold alloc. by rewrite Hlen.
Qed.

(** C8 (amended): for a string whose encoding is not empty and fits under
    the capacity, and which the decoder gets back from its encoding,
    [writeString] returns a fresh address holding exactly the encoded
    bytes, and [readString] of that many bytes there gives the string. *)
Theorem string_roundtrip (s : VirtualMemory) (v : string) :
  0 < blen (encodeText v) →
  byteLength s + blen (encodeText v) ≤ capacity s →
  decodeText (encodeText v) = v →
  ∃ addr s',
    writeString v 0 s = (Return (Some addr), s') ∧
    memory s !! addr = None ∧
    s' = with_memory (<[addr := encodeText v]> (memory s)) s ∧
    readString addr (Some (blen (encodeText v))) 0 s' = Return (Some v).
Proof.
  intros Hpos Hfit Hdec.
  destruct (alloc_cases (blen (encodeText v)) s)
    as [[e He]|(_ & _ & addr & Hfree & Halloc)].
  { exfalso. revert He. unfold alloc. zcmp; done. }
  set (zeros := replicate (Z.to_nat (blen (encodeText v))) Byte.x00) in *.
  assert (length zeros = length (encodeText v)) as Hzeros
    by (unfold zeros, blen; rewrite length_replicate; lia).
  assert (set_at zeros (encodeText v) 0 = encodeText v) as Hset.
  { rewrite set_at_0, drop_ge by lia. apply app_nil_r. }
  exists addr, (with_memory (<[addr := encodeText v]> (memory s)) s).
  split; [|split; [done|split; [done|]]].
  - unfold writeString, mbind, M_bind, bind. rewrite Halloc.
    rewrite (write_live _ addr 0 zeros);
      [|apply lookup_insert_eq | lia | lia | unfold blen; lia].
    cbn [negb mret M_ret ret]. rewrite Hset. unfold with_memory. cbn.
    by rewrite insert_insert_eq.
  - unfold readString.
    rewrite (read_live _ addr 0 (blen (encodeText v)) (encodeText v));
      [|apply lookup_insert_eq | lia ..].
    rewrite read_view_elements by lia.
    unfold blen. rewrite Nat2Z.id. change (Z.to_nat 0) with 0%nat.
    by rewrite drop_0, firstn_all, Hdec.
Qed.
End StringCodecProperties.

Lemma writeString_empty_witness :
  writeString "" 0 two_names =
    (Throw (RangeError "Memory allocation size must be greater than 0"), two_names).
Proof. apply (writeString_empty two_names 0). reflexivity. Defined.

Lemma string_roundtrip_witness :
  ∃ addr s',
    writeString "Hello" 0 two_names = (Return (Some addr), s') ∧
    memory two_names !! addr = None ∧
    s' = with_memory (<[addr := encodeText "Hello"]> (memory two_names)) two_names ∧
    readString addr (Some (blen (encodeText "Hello"))) 0 s' = Return (Some "Hello").
Proof.
  apply (string_roundtrip two_names "Hello").
  - reflexivity.
  - vm_compute. discriminate.
  - reflexivity.
Defined.

(** C8 as stated fails on the empty string, and on a string that does not
    fit: [writeString] returns no address, although the encoding is the same
    for both directions and loses nothing. *)
Lemma writeString_no_address :
  decodeText (encodeText "") = "" ∧
  writeString "" 0 empty80 =
    (Throw (RangeError "Memory allocation size must be greater than 0"), empty80) ∧
  decodeText (encodeText "Hello") = "Hello" ∧
  writeString "Hello" 0 one_block_of_80 =
    (Throw (RangeError "Memory allocation exceeds the memory capacity"),
     one_block_of_80).
Proof. by vm_compute. Qed.

(** C6, the code at a failing call: [writeString] with offset 1 throws the
    range error of [write], and the block it allocated before stays in the
    space, zeroed, with no address returned to free it by.  Every method of
    the class is all-or-nothing ([call_effect]); [writeString] is not. *)
Theorem writeString_failure_keeps_block :
  writeString "Hello" 1 empty80 =
    (Throw (RangeError "Invalid memory write data length"),
     with_memory {[0 := replicate 5 Byte.x00]} empty80) ∧
  size (snd (writeString "Hello" 1 empty80)) = 1 ∧
  byteLength (snd (writeString "Hello" 1 empty80)) = 5 ∧
  size empty80 = 0.
Proof. by vm_compute. Qed.

(** The scenario of the specification, on an empty space of 80 bytes. *)
Example scenario :
  fst (alloc 10 empty80) = Return 0 ∧
  fst (writeString "Hello" 0 (exec LittleEndian (Alloc 10) empty80)) = Return (Some 1) ∧
  (let s := snd (writeString "Hello" 0 (exec LittleEndian (Alloc 10) empty80)) in
   readString 1 None 0 s = Return (Some "Hello") ∧
   fst (free 0 s) = Return true ∧
   fst (free 0 (snd (free 0 s))) = Return false).
Proof. by vm_compute. Qed.

(** * Further properties of the methods *)

(** ** Allocation and release *)

Lemma has_true (s : VirtualMemory) (a : Z) (mem : list byte) :
  memory s !! a = Some mem → has a s = true.
Proof. intros Hlive. unfold has. apply bool_decide_eq_true_2. by eexists. Qed.

Lemma has_false (s : VirtualMemory) (a : Z) :
  memory s !! a = None → has a s = false.
Proof.
  intros Hfree. unfold has. apply bool_decide_eq_false_2.
  rewrite Hfree. by intros [? ?].
Qed.

(** A read without length at offset 0 of a block that is not empty returns
    the block itself. *)
Lemma read_whole (s : VirtualMemory) (a : Z) (mem : list byte) :
  memory s !! a = Some mem → 0 < blen mem →
  read a None 0 s = Return (Some (whole mem)).
Proof.
  intros Hlive Hpos. unfold read. rewrite Hlive. cbn [from_option id].
  destruct ((0 <? 0) || (0 >=? blen mem)) eqn:G1; [exfalso; revert G1; by zcmp|].
  destruct ((blen mem <=? 0) || (0 + blen mem >? blen mem)) eqn:G2;
    [exfalso; revert G2; by zcmp|].
  by rewrite Z.eqb_refl.
Qed.

(** X1: an allocation that fits returns an address that was not live and
    now holds a block of [n] zero bytes, which a read without length
    returns whole; one block and [n] bytes are added, and the other blocks,
    the names and the capacity stay. *)
Theorem alloc_fresh_block (s : VirtualMemory) (n : Z) :
  0 < n → byteLength s + n ≤ capacity s →
  ∃ a s',
    alloc n s = (Return a, s') ∧
    has a s = false ∧ has a s' = true ∧
    memory s' !! a = Some (replicate (Z.to_nat n) Byte.x00) ∧
    (∃ v, read a None 0 s' = Return (Some v) ∧
          elements v = replicate (Z.to_nat n) Byte.x00) ∧
    size s' = size s + 1 ∧
    byteLength s' = byteLength s + n ∧
    (∀ b, b ≠ a → memory s' !! b = memory s !! b) ∧
    mappedAddressNames s' = mappedAddressNames s ∧
    capacity s' = capacity s.
Proof.
  intros Hpos Hfit.
  destruct (alloc_cases n s) as [[e He]|(_ & _ & a & Hfree & Halloc)].
  { exfalso. revert He. unfold alloc. zcmp; done. }
  eexists a, _. split; [exact Halloc|].
  assert (blen (replicate (Z.to_nat n) Byte.x00) = n) as Hlen
    by (unfold blen; rewrite length_replicate; lia).
  split; [by apply has_false|].
  split; [eapply has_true; apply lookup_insert_eq|].
  split; [apply lookup_insert_eq|].
  split.
  { eexists. split; [apply read_whole; [apply lookup_insert_eq | lia]|].
    apply elements_whole. }
  split.
  { unfold size. cbn [memory with_memory].
    rewrite map_size_insert_None by done. lia. }
  split.
  { unfold byteLength. cbn [memory with_memory].
    rewrite total_bytes_insert by done. lia. }
  split; [|done].
  intros b Hne. cbn [memory with_memory]. by rewrite lookup_insert_ne.
Qed.

Lemma alloc_fresh_block_witness :
  ∃ a s',
    alloc 5 two_names = (Return a, s') ∧
    has a two_names = false ∧ has a s' = true ∧
    memory s' !! a = Some (replicate (Z.to_nat 5) Byte.x00) ∧
    (∃ v, read a None 0 s' = Return (Some v) ∧
          elements v = replicate (Z.to_nat 5) Byte.x00) ∧
    size s' = size two_names + 1 ∧
    byteLength s' = byteLength two_names + 5 ∧
    (∀ b, b ≠ a → memory s' !! b = memory two_names !! b) ∧
    mappedAddressNames s' = mappedAddressNames two_names ∧
    capacity s' = capacity two_names.
Proof.
  apply (alloc_fresh_block two_names 5).
  - lia.
  - vm_compute. discriminate.
Defined.

(** X2: [alloc] returns an address exactly when the size is positive and
    fits with the bytes already occupied; otherwise it throws a
    [RangeError] (the size error when [n <= 0], else the capacity error)
    and leaves the space as it was. *)
Theorem alloc_returns_iff (s : VirtualMemory) (n : Z) :
  ((∃ a s', alloc n s = (Return a, s')) ↔
   (0 < n ∧ byteLength s + n ≤ capacity s)) ∧
  ((∃ msg, alloc n s = (Throw (RangeError msg), s)) ↔
   ¬ (0 < n ∧ byteLength s + n ≤ capacity s)) ∧
  (n ≤ 0 ↔
   alloc n s =
     (Throw (RangeError "Memory allocation size must be greater than 0"), s)).
Proof.
  unfold alloc.
  destruct (Z.leb_spec n 0) as [Hn|Hn].
  - split; [|split].
    + split; [by intros (a & s' & ?) | lia].
    + split; [lia | intros _; by eexists].
    + done.
  - rewrite Z.gtb_ltb.
    destruct (Z.ltb_spec (capacity s) (byteLength s + n)) as [Hc|Hc].
    + split; [|split].
      * split; [by intros (a & s' & ?) | lia].
      * split; [lia | intros _; by eexists].
      * split; [lia | by intros ?].
    + split; [|split].
      * split; [lia | intros _; by eexists _, _].
      * split; [by intros (msg & ?) | lia].
      * split; [lia | by intros ?].
Qed.

(** X3: [free] of a live address takes one block and the bytes of that block
    off the counts, keeps every other block and the capacity, and makes the
    address available to [has] as not live. *)
Theorem free_accounting (s : VirtualMemory) (a : Z) (mem : list byte) :
  memory s !! a = Some mem →
  ∃ s',
    free a s = (Return true, s') ∧
    has a s' = false ∧
    size s' = size s - 1 ∧
    byteLength s' = byteLength s - blen mem ∧
    (∀ b, b ≠ a → memory s' !! b = memory s !! b) ∧
    capacity s' = capacity s.
Proof.
  intros Hlive. eexists. unfold free. rewrite (has_true s a mem Hlive).
  cbn [negb]. split; [done|].
  split; [apply has_false; cbn; apply lookup_delete_eq|].
  split.
  { unfold size. cbn [memory].
    rewrite map_size_delete_Some by by eexists.
    assert (base.size (memory s) ≠ 0%nat) as Hne.
    { intros Hz. apply map_size_empty_inv in Hz. rewrite Hz in Hlive.
      by rewrite lookup_empty in Hlive. }
    lia. }
  split.
  { unfold byteLength. cbn [memory].
    rewrite (total_bytes_delete _ _ _ Hlive). lia. }
  split; [|done].
  intros b Hne. cbn [memory]. by rewrite lookup_delete_ne.
Qed.

Lemma free_accounting_witness :
  ∃ s',
    free 1 two_of_three = (Return true, s') ∧
    has 1 s' = false ∧
    size s' = size two_of_three - 1 ∧
    byteLength s' = byteLength two_of_three - blen (replicate 3 Byte.x00) ∧
    (∀ b, b ≠ 1 → memory s' !! b = memory two_of_three !! b) ∧
    capacity s' = capacity two_of_three.
Proof.
  apply (free_accounting two_of_three 1 (replicate 3 Byte.x00)). reflexivity.
Defined.

(** X4: [erase] empties the space whatever it held: no block, no byte, no
    name and no address is left, the capacity is kept, and from there an
    allocation that fits the capacity returns address 0. *)
Theorem erase_resets (s : VirtualMemory) :
  ∃ s',
    erase s = (Return tt, s') ∧
    size s' = 0 ∧ byteLength s' = 0 ∧
    (∀ a, has a s' = false) ∧
    (∀ name, hasVar name s' = false ∧ getVarAddress name s' = None) ∧
    capacity s' = capacity s ∧
    (∀ n, 0 < n → n ≤ capacity s → fst (alloc n s') = Return 0).
Proof.
  eexists. split; [reflexivity|].
  split; [done|]. split; [unfold byteLength; cbn; apply total_bytes_empty|].
  split; [intros a; by apply has_false|].
  split; [done|]. split; [done|].
  intros n Hpos Hfit. unfold alloc, byteLength, size. cbn [memory capacity occupiedAddresses].
  rewrite total_bytes_empty. cbn [length].
  destruct (Z.leb_spec n 0); [lia|]. rewrite Z.gtb_ltb.
  destruct (Z.ltb_spec (capacity s) (0 + n)); [lia|].
  cbn [fst]. rewrite probe_step. by rewrite lookup_empty.
Qed.

(** ** Regions *)

(** [set_at] replaces exactly the bytes under [data]. *)
Lemma set_at_parts (mem data : list byte) (offset : Z) :
  0 ≤ offset → offset + blen data ≤ blen mem →
  take (Z.to_nat offset) (set_at mem data offset) = take (Z.to_nat offset) mem ∧
  take (length data) (drop (Z.to_nat offset) (set_at mem data offset)) = data ∧
  drop (Z.to_nat offset + length data) (set_at mem data offset) =
    drop (Z.to_nat offset + length data) mem.
Proof.
  unfold set_at, blen. intros Hoff Hfit.
  assert (length (take (Z.to_nat offset) mem) = Z.to_nat offset) as Hlen
    by (rewrite length_take; lia).
  split; [|split].
  - by rewrite take_app_length'.
  - rewrite drop_app_length' by done. apply take_app_length.
  - rewrite app_assoc. apply drop_app_length'.
    rewrite length_app, Hlen. done.
Qed.

(** X5: a write that fits at any offset returns [true]; the bytes under the
    data are then the data, as a read of that region shows, and the bytes
    before and after it, the length of the block, the other blocks and the
    names are as before. *)
Theorem write_read_at_offset (s : VirtualMemory) (a offset : Z) (mem d : list byte) :
  memory s !! a = Some mem → 0 ≤ offset → 0 < blen d → offset + blen d ≤ blen mem →
  ∃ s' mem',
    write a d offset s = (Return true, s') ∧
    memory s' !! a = Some mem' ∧
    length mem' = length mem ∧
    take (Z.to_nat offset) mem' = take (Z.to_nat offset) mem ∧
    drop (Z.to_nat offset + length d) mem' = drop (Z.to_nat offset + length d) mem ∧
    (∃ v, read a (Some (blen d)) offset s' = Return (Some v) ∧ elements v = d) ∧
    (∀ b, b ≠ a → memory s' !! b = memory s !! b) ∧
    mappedAddressNames s' = mappedAddressNames s.
Proof.
  intros Hlive Hoff Hpos Hfit.
  destruct (set_at_parts mem d offset Hoff Hfit) as (Hbefore & Hat & Hafter).
  assert (length (set_at mem d offset) = length mem) as Hlen
    by by apply set_at_length.
  exists (with_memory (<[a := set_at mem d offset]> (memory s)) s), (set_at mem d offset).
  split; [by apply write_live|].
  split; [apply lookup_insert_eq|].
  split; [done|]. split; [done|]. split; [done|].
  split.
  { eexists. split.
    - apply read_live; [apply lookup_insert_eq | done | done | unfold blen in *; lia].
    - rewrite read_view_elements by (unfold blen in *; lia).
      unfold blen. by rewrite Nat2Z.id. }
  split; [|done].
  intros b Hne. cbn [memory with_memory]. by rewrite lookup_insert_ne.
Qed.

Lemma write_read_at_offset_witness :
  ∃ s' mem',
    write 0 [Byte.x41; Byte.x42] 1 one_block = (Return true, s') ∧
    memory s' !! 0 = Some mem' ∧
    length mem' = length (replicate 4 Byte.x00) ∧
    take (Z.to_nat 1) mem' = take (Z.to_nat 1) (replicate 4 Byte.x00) ∧
    drop (Z.to_nat 1 + length [Byte.x41; Byte.x42]) mem' =
      drop (Z.to_nat 1 + length [Byte.x41; Byte.x42]) (replicate 4 Byte.x00) ∧
    (∃ v, read 0 (Some (blen [Byte.x41; Byte.x42])) 1 s' = Return (Some v) ∧
          elements v = [Byte.x41; Byte.x42]) ∧
    (∀ b, b ≠ 0 → memory s' !! b = memory one_block !! b) ∧
    mappedAddressNames s' = mappedAddressNames one_block.
Proof.
  apply (write_read_at_offset one_block 0 1 (replicate 4 Byte.x00) [Byte.x41; Byte.x42]).
  - reflexivity.
  - lia.
  - reflexivity.
  - vm_compute. discriminate.
Defined.

(** X6: on a live address [write] returns [true] exactly when the offset is
    not negative, the data is not empty and it ends inside the block; in
    every other case it throws a [RangeError] and the space is as before.
    It never returns [false] there. *)
Theorem write_bounds (s : VirtualMemory) (a offset : Z) (mem d : list byte) :
  memory s !! a = Some mem →
  (fst (write a d offset s) = Return true ↔
   0 ≤ offset ∧ 0 < blen d ∧ offset + blen d ≤ blen mem) ∧
  (fst (write a d offset s) = Return true ∨
   ∃ msg, write a d offset s = (Throw (RangeError msg), s)).
Proof.
  intros Hlive. unfold write. rewrite Hlive.
  destruct ((offset <? 0) || (offset >=? blen mem)) eqn:G1.
  { split; [|right; by eexists].
    split; [done|]. intros (? & ? & ?). revert G1. by zcmp. }
  destruct ((blen d <=? 0) || (offset + blen d >? blen mem)) eqn:G2.
  { split; [|right; by eexists].
    split; [done|]. intros (? & ? & ?). revert G2. by zcmp. }
  split; [|by left]. split; [|done]. intros _. revert G1 G2. by zcmp.
Qed.

Lemma write_bounds_witness :
  (fst (write 0 [Byte.x41] 4 one_block) = Return true ↔
   0 ≤ 4 ∧ 0 < blen [Byte.x41] ∧ 4 + blen [Byte.x41] ≤ blen (replicate 4 Byte.x00)) ∧
  (fst (write 0 [Byte.x41] 4 one_block) = Return true ∨
   ∃ msg, write 0 [Byte.x41] 4 one_block = (Throw (RangeError msg), one_block)).
Proof.
  apply (write_bounds one_block 0 4 (replicate 4 Byte.x00) [Byte.x41]). reflexivity.
Defined.

(** X7: on a live address a read with a given length returns a view exactly
    when the offset is not negative, the length is positive and the region
    ends inside the block; the view then shows the bytes of that region and
    is cut from the buffer of the block.  In every other case the read
    throws a [RangeError]; it returns [null] in none. *)
Theorem read_bounds (s : VirtualMemory) (a offset n : Z) (mem : list byte) :
  memory s !! a = Some mem →
  match read a (Some n) offset s with
  | Return (Some v) =>
      (0 ≤ offset ∧ 0 < n ∧ offset + n ≤ blen mem) ∧
      elements v = take (Z.to_nat n) (drop (Z.to_nat offset) mem) ∧
      buffer v = mem
  | Return None => False
  | Throw e =>
      ¬ (0 ≤ offset ∧ 0 < n ∧ offset + n ≤ blen mem) ∧ ∃ msg, e = RangeError msg
  end.
Proof.
  intros Hlive. unfold read. rewrite Hlive. cbn [from_option id].
  destruct ((offset <? 0) || (offset >=? blen mem)) eqn:G1.
  { split; [|by eexists]. intros (? & ? & ?). revert G1. by zcmp. }
  destruct ((n <=? 0) || (offset + n >? blen mem)) eqn:G2.
  { split; [|by eexists]. intros (? & ? & ?). revert G2. by zcmp. }
  assert (0 ≤ offset ∧ 0 < n ∧ offset + n ≤ blen mem) as Hin
    by (revert G1 G2; by zcmp).
  split; [done|]. split.
  - apply read_view_elements; lia.
  - by destruct (_ && _).
Qed.

Lemma read_bounds_witness :
  match read 0 (Some 3) 1 one_block with
  | Return (Some v) =>
      (0 ≤ 1 ∧ 0 < 3 ∧ 1 + 3 ≤ blen (replicate 4 Byte.x00)) ∧
      elements v = take (Z.to_nat 3) (drop (Z.to_nat 1) (replicate 4 Byte.x00)) ∧
      buffer v = replicate 4 Byte.x00
  | Return None => False
  | Throw e =>
      ¬ (0 ≤ 1 ∧ 0 < 3 ∧ 1 + 3 ≤ blen (replicate 4 Byte.x00)) ∧
      ∃ msg, e = RangeError msg
  end.
Proof. apply (read_bounds one_block 0 1 3 (replicate 4 Byte.x00)). reflexivity. Defined.

(** X8: a read that leaves the length out takes the length of the whole
    block, not what is left after the offset, so with an offset other than
    0 it throws a [RangeError] on every live address. *)
Theorem read_default_length_offset (s : VirtualMemory) (a offset : Z) (mem : list byte) :
  memory s !! a = Some mem → offset ≠ 0 →
  ∃ msg, read a None offset s = Throw (RangeError msg).
Proof.
  intros Hlive Hne. unfold read. rewrite Hlive. cbn [from_option id].
  destruct ((offset <? 0) || (offset >=? blen mem)) eqn:G1; [by eexists|].
  destruct ((blen mem <=? 0) || (offset + blen mem >? blen mem)) eqn:G2; [by eexists|].
  exfalso. revert G1 G2. by zcmp.
Qed.

Lemma read_default_length_offset_witness :
  ∃ msg, read 0 None 1 one_block = Throw (RangeError msg).
Proof.
  apply (read_default_length_offset one_block 0 1 (replicate 4 Byte.x00)).
  - reflexivity.
  - lia.
Defined.

(** X9: a fill that fits sets every byte of the region to the low 8 bits of
    the value and leaves the bytes before and after it and the length of
    the block alone; a read of the region then shows [n] copies of that
    byte, and [clear] is the fill with 0. *)
Theorem fill_region (s : VirtualMemory) (a v n offset : Z) (mem : list byte) :
  memory s !! a = Some mem → 0 ≤ offset → 0 < n → offset + n ≤ blen mem →
  ∃ s' mem',
    fill a v n offset s = (Return true, s') ∧
    memory s' !! a = Some mem' ∧
    mem' = take (Z.to_nat offset) mem ++
           replicate (Z.to_nat n) (byte_of_Z v) ++
           drop (Z.to_nat offset + Z.to_nat n) mem ∧
    length mem' = length mem ∧
    Z_of_byte (byte_of_Z v) = v mod 256 ∧
    (∃ w, read a (Some n) offset s' = Return (Some w) ∧
          elements w = replicate (Z.to_nat n) (byte_of_Z v)) ∧
    (∀ b, b ≠ a → memory s' !! b = memory s !! b) ∧
    clear a n offset s = fill a 0 n offset s.
Proof.
  intros Hlive Hoff Hpos Hfit.
  set (data := replicate (Z.to_nat n) (byte_of_Z v)).
  assert (length data = Z.to_nat n) as Hdata by apply length_replicate.
  assert (blen data = n) as Hblen by (unfold blen; lia).
  assert (fill_range mem (byte_of_Z v) offset (offset + n) = set_at mem data offset)
    as Hrange.
  { unfold fill_range. by replace (offset + n - offset) with n by lia. }
  destruct (set_at_parts mem data offset Hoff) as (Hbefore & Hat & Hafter); [lia|].
  exists (with_memory (<[a := set_at mem data offset]> (memory s)) s), (set_at mem data offset).
  split.
  { unfold fill. rewrite Hlive, Hrange.
    destruct ((offset <? 0) || (offset >=? blen mem)) eqn:G1; [exfalso; revert G1; by zcmp|].
    destruct ((n <=? 0) || (offset + n >? blen mem)) eqn:G2; [exfalso; revert G2; by zcmp|].
    done. }
  split; [apply lookup_insert_eq|].
  split; [unfold set_at; by rewrite Hdata|].
  split; [apply set_at_length; lia|].
  split; [apply Z_of_byte_of_Z|].
  split.
  { eexists. split.
    - apply read_live; [apply lookup_insert_eq | done | done |].
      unfold blen. rewrite set_at_length by lia. done.
    - rewrite read_view_elements;
        [|done | done | unfold blen; rewrite set_at_length by lia; done].
      by rewrite <- Hdata. }
  split; [|done].
  intros b Hne. cbn [memory with_memory]. by rewrite lookup_insert_ne.
Qed.

Lemma fill_region_witness :
  ∃ s' mem',
    fill 0 511 2 1 one_block = (Return true, s') ∧
    memory s' !! 0 = Some mem' ∧
    mem' = take (Z.to_nat 1) (replicate 4 Byte.x00) ++
           replicate (Z.to_nat 2) (byte_of_Z 511) ++
           drop (Z.to_nat 1 + Z.to_nat 2) (replicate 4 Byte.x00) ∧
    length mem' = length (replicate 4 Byte.x00) ∧
    Z_of_byte (byte_of_Z 511) = 511 mod 256 ∧
    (∃ w, read 0 (Some 2) 1 s' = Return (Some w) ∧
          elements w = replicate (Z.to_nat 2) (byte_of_Z 511)) ∧
    (∀ b, b ≠ 0 → memory s' !! b = memory one_block !! b) ∧
    clear 0 2 1 one_block = fill 0 0 2 1 one_block.
Proof.
  apply (fill_region one_block 0 511 2 1 (replicate 4 Byte.x00)).
  - reflexivity.
  - lia.
  - lia.
  - vm_compute. discriminate.
Defined.

(** X10: a copy that fits puts the [n] source bytes from [so], as they were
    before the call, at [do] in the destination and changes nothing else
    there, also when source and destination are the same block and the two
    regions overlap. *)
Theorem copy_region (s : VirtualMemory) (sa da n so do : Z) (src dst : list byte) :
  memory s !! sa = Some src → memory s !! da = Some dst →
  0 ≤ so → 0 ≤ do → 0 < n → so + n ≤ blen src → do + n ≤ blen dst →
  ∃ s' dst',
    copy sa da n so do s = (Return true, s') ∧
    memory s' !! da = Some dst' ∧
    length dst' = length dst ∧
    take (Z.to_nat do) dst' = take (Z.to_nat do) dst ∧
    take (Z.to_nat n) (drop (Z.to_nat do) dst') =
      take (Z.to_nat n) (drop (Z.to_nat so) src) ∧
    drop (Z.to_nat do + Z.to_nat n) dst' = drop (Z.to_nat do + Z.to_nat n) dst ∧
    (∀ b, b ≠ da → memory s' !! b = memory s !! b).
Proof.
  intros Hsrc Hdst Hso Hdo Hpos Hsfit Hdfit.
  set (data := elements (subarray src so (so + n))).
  assert (data = take (Z.to_nat n) (drop (Z.to_nat so) src)) as Hdata.
  { unfold data, elements, subarray. cbn [buffer byteOffset viewLength].
    by replace (so + n - so) with n by lia. }
  assert (length data = Z.to_nat n) as Hlen.
  { rewrite Hdata, length_take, length_drop. unfold blen in *. lia. }
  destruct (set_at_parts dst data do Hdo) as (Hbefore & Hat & Hafter);
    [unfold blen in *; lia|].
  exists (with_memory (<[da := set_at dst data do]> (memory s)) s), (set_at dst data do).
  split.
  { unfold copy. rewrite Hsrc, Hdst. fold data.
    destruct ((so <? 0) || (so >=? blen src)) eqn:G1; [exfalso; revert G1; by zcmp|].
    destruct ((do <? 0) || (do >=? blen dst)) eqn:G2; [exfalso; revert G2; by zcmp|].
    destruct ((n <=? 0) || (so + n >? blen src) || (do + n >? blen dst)) eqn:G3;
      [exfalso; revert G3; by zcmp|].
    done. }
  split; [apply lookup_insert_eq|].
  split; [apply set_at_length; unfold blen in *; lia|].
  split; [done|].
  split; [rewrite <- Hdata, <- Hlen; exact Hat|].
  split; [by rewrite <- Hlen|].
  intros b Hne. cbn [memory with_memory]. by rewrite lookup_insert_ne.
Qed.

Lemma copy_region_witness :
  ∃ s' dst',
    copy 0 0 3 0 1 abcd = (Return true, s') ∧
    memory s' !! 0 = Some dst' ∧
    length dst' = length [Byte.x41; Byte.x42; Byte.x43; Byte.x44] ∧
    take (Z.to_nat 1) dst' = take (Z.to_nat 1) [Byte.x41; Byte.x42; Byte.x43; Byte.x44] ∧
    take (Z.to_nat 3) (drop (Z.to_nat 1) dst') =
      take (Z.to_nat 3) (drop (Z.to_nat 0) [Byte.x41; Byte.x42; Byte.x43; Byte.x44]) ∧
    drop (Z.to_nat 1 + Z.to_nat 3) dst' =
      drop (Z.to_nat 1 + Z.to_nat 3) [Byte.x41; Byte.x42; Byte.x43; Byte.x44] ∧
    (∀ b, b ≠ 0 → memory s' !! b = memory abcd !! b).
Proof.
  apply (copy_region abcd 0 0 3 0 1
           [Byte.x41; Byte.x42; Byte.x43; Byte.x44]
           [Byte.x41; Byte.x42; Byte.x43; Byte.x44]);
    first [reflexivity | lia | (vm_compute; discriminate)].
Defined.

(** Copying [ABC] one place to the right inside [ABCD] gives [AABC]. *)
Example copy_overlap :
  memory (snd (copy 0 0 3 0 1 abcd)) !! 0 =
    Some [Byte.x41; Byte.x41; Byte.x42; Byte.x43].
Proof. reflexivity. Qed.

(** ** Named access *)

Lemma Map_get_set_eq (name : string) (v : Z) (m : list (string * Z)) :
  Map_get name (Map_set name v m) = Some v.
Proof.
  unfold Map_get. induction m as [|[k w] m IH]; cbn.
  - by rewrite String.eqb_refl.
  - destruct (String.eqb_spec k name) as [->|Hne]; cbn.
    + by rewrite String.eqb_refl.
    + destruct (String.eqb_spec k name); [done | apply IH].
Qed.

Lemma Map_get_set_ne (name other : string) (v : Z) (m : list (string * Z)) :
  other ≠ name → Map_get other (Map_set name v m) = Map_get other m.
Proof.
  intros Hne. unfold Map_get. induction m as [|[k w] m IH]; cbn.
  - by destruct (String.eqb_spec name other); [congruence|].
  - destruct (String.eqb_spec k name) as [->|Hk]; cbn.
    + by destruct (String.eqb_spec name other); [congruence|].
    + destruct (String.eqb_spec k other); [done | apply IH].
Qed.

Lemma getVarAddress_get (name : string) (s : VirtualMemory) :
  getVarAddress name s = Map_get name (mappedAddressNames s).
Proof.
  unfold getVarAddress, var_address, hasVar, Map_has.
  by destruct (Map_get name (mappedAddressNames s)) as [a|].
Qed.

Lemma hasVar_get (name : string) (s : VirtualMemory) :
  hasVar name s = bool_decide (is_Some (getVarAddress name s)).
Proof. by rewrite getVarAddress_get. Qed.

Lemma bound_name (name : string) (a : Z) (s : VirtualMemory) :
  getVarAddress name s = Some a → hasVar name s = true ∧ var_address name s = a.
Proof.
  intros Hget. split.
  - rewrite hasVar_get, Hget. by apply bool_decide_eq_true_2.
  - rewrite getVarAddress_get in Hget. unfold var_address. by rewrite Hget.
Qed.

(** The first entry bound to [a] is the one the loop of [free] deletes. *)
Lemma drop_first_name_at (a : Z) (name : string) (l1 l2 : list (string * Z)) :
  NoDup (l1 ++ (name, a) :: l2).*1 → Forall (λ p, p.2 ≠ a) l1 →
  drop_first_name a (l1 ++ (name, a) :: l2) = l1 ++ l2.
Proof.
  intros Hnd Hl1. unfold drop_first_name.
  assert (List.find (λ p : string * Z, p.2 =? a) (l1 ++ (name, a) :: l2) = Some (name, a))
    as ->.
  { clear Hnd. induction Hl1 as [|[k w] l1 Hk _ IH]; cbn.
    - by rewrite Z.eqb_refl.
    - cbn in Hk. by destruct (Z.eqb_spec w a). }
  by apply Map_delete_middle.
Qed.

Lemma Map_get_middle (name : string) (a : Z) (l1 l2 : list (string * Z)) :
  name ∉ l1.*1 → Map_get name (l1 ++ (name, a) :: l2) = Some a.
Proof.
  intros Hnot. unfold Map_get. induction l1 as [|[k w] l1 IH]; cbn.
  - by rewrite String.eqb_refl.
  - cbn in Hnot. apply not_elem_of_cons in Hnot as [Hk Hnot].
    destruct (String.eqb_spec k name); [congruence | by apply IH].
Qed.

(** X11: [setVar] on a name that is not bound binds it to the address, live
    or not: the name then resolves to that address, every other name
    resolves as before and the blocks are untouched; binding the name again
    throws and changes nothing. *)
Theorem setVar_getVarAddress (s : VirtualMemory) (name : string) (a : Z) :
  hasVar name s = false →
  ∃ s',
    setVar name a s = (Return tt, s') ∧
    getVarAddress name s' = Some a ∧
    hasVar name s' = true ∧
    (∀ other, other ≠ name → getVarAddress other s' = getVarAddress other s) ∧
    memory s' = memory s ∧
    (∀ b, setVar name b s' = (Throw (Error "Variable name already exists"), s')).
Proof.
  intros Hfree. eexists. unfold setVar at 1. rewrite Hfree.
  split; [done|].
  assert (getVarAddress name (with_names (Map_set name a (mappedAddressNames s)) s) = Some a)
    as Hget by (rewrite getVarAddress_get; apply Map_get_set_eq).
  assert (hasVar name (with_names (Map_set name a (mappedAddressNames s)) s) = true)
    as Hhas by (rewrite hasVar_get, Hget; by apply bool_decide_eq_true_2).
  split; [done|]. split; [done|]. split.
  { intros other Hne. rewrite !getVarAddress_get. by apply Map_get_set_ne. }
  split; [done|].
  intros b. unfold setVar. by rewrite Hhas.
Qed.

Lemma setVar_getVarAddress_witness :
  ∃ s',
    setVar "r" 7 two_names = (Return tt, s') ∧
    getVarAddress "r" s' = Some 7 ∧
    hasVar "r" s' = true ∧
    (∀ other, other ≠ "r" → getVarAddress other s' = getVarAddress other two_names) ∧
    memory s' = memory two_names ∧
    (∀ b, setVar "r" b s' = (Throw (Error "Variable name already exists"), s')).
Proof. apply (setVar_getVarAddress two_names "r" 7). reflexivity. Defined.

(** X12: through a name bound to an address, each named method is the
    address method at that address, with its result, its errors and its
    effect. *)
Theorem Var_forms_delegate (s : VirtualMemory) (name : string) (a : Z) :
  getVarAddress name s = Some a →
  (∀ n offset, readVar name n offset s = read a n offset s) ∧
  (∀ d offset, writeVar name d offset s = write a d offset s) ∧
  (∀ v n offset, fillVar name v n offset s = fill a v n offset s) ∧
  (∀ n offset, clearVar name n offset s = clear a n offset s) ∧
  freeVar name s = free a s ∧
  (∀ n so do, copyVar name name n so do s = copy a a n so do s) ∧
  (∀ other b n so do,
     getVarAddress other s = Some b →
     copyVar name other n so do s = copy a b n so do s ∧
     copyVar other name n so do s = copy b a n so do s).
Proof.
  intros Hget. destruct (bound_name name a s Hget) as [Hhas Haddr].
  unfold readVar, writeVar, clearVar, fillVar, freeVar, copyVar, clear.
  rewrite Hhas, Haddr. cbn [negb orb].
  do 6 (split; [done|]).
  intros other b n so do Hother.
  destruct (bound_name other b s Hother) as [Hhas' Haddr'].
  by rewrite Hhas', Haddr'.
Qed.

Lemma Var_forms_delegate_witness :
  (∀ n offset, readVar "q" n offset two_names = read 0 n offset two_names) ∧
  (∀ d offset, writeVar "q" d offset two_names = write 0 d offset two_names) ∧
  (∀ v n offset, fillVar "q" v n offset two_names = fill 0 v n offset two_names) ∧
  (∀ n offset, clearVar "q" n offset two_names = clear 0 n offset two_names) ∧
  freeVar "q" two_names = free 0 two_names ∧
  (∀ n so do, copyVar "q" "q" n so do two_names = copy 0 0 n so do two_names) ∧
  (∀ other b n so do,
     getVarAddress other two_names = Some b →
     copyVar "q" other n so do two_names = copy 0 b n so do two_names ∧
     copyVar other "q" n so do two_names = copy b 0 n so do two_names).
Proof. apply (Var_forms_delegate two_names "q" 0). reflexivity. Defined.

(** X13: through a name that is not bound, or that is bound to an address
    that is not live, every named method answers [null] or [false]; none
    throws, whatever the offsets and lengths, and none changes the space. *)
Theorem Var_forms_not_live (s : VirtualMemory) (name : string) :
  (∀ a, getVarAddress name s = Some a → has a s = false) →
  (∀ n offset, readVar name n offset s = Return None) ∧
  (∀ d offset, writeVar name d offset s = (Return false, s)) ∧
  (∀ v n offset, fillVar name v n offset s = (Return false, s)) ∧
  (∀ n offset, clearVar name n offset s = (Return false, s)) ∧
  freeVar name s = (Return false, s) ∧
  (∀ other n so do,
     copyVar name other n so do s = (Return false, s) ∧
     copyVar other name n so do s = (Return false, s)).
Proof.
  intros Hdead.
  unfold readVar, writeVar, clearVar, fillVar, freeVar, copyVar.
  destruct (hasVar name s) eqn:Hhas; cbn [negb orb].
  - assert (memory s !! var_address name s = None) as Hfree.
    { specialize (Hdead (var_address name s)).
      unfold getVarAddress in Hdead. rewrite Hhas in Hdead.
      specialize (Hdead eq_refl). unfold has in Hdead.
      apply bool_decide_eq_false in Hdead.
      destruct (memory s !! var_address name s); [|done].
      destruct Hdead. by eexists. }
    unfold read, write, fill, free, copy.
    rewrite (has_false _ _ Hfree), Hfree. cbn [negb].
    do 5 (split; [done|]).
    intros other n so do.
    destruct (hasVar other s); cbn [negb]; [|done].
    by destruct (memory s !! var_address other s).
  - do 5 (split; [done|]).
    intros other n so do. by rewrite orb_true_r.
Qed.

Lemma Var_forms_not_live_witness :
  (∀ n offset, readVar "q" n offset q_dangling = Return None) ∧
  (∀ d offset, writeVar "q" d offset q_dangling = (Return false, q_dangling)) ∧
  (∀ v n offset, fillVar "q" v n offset q_dangling = (Return false, q_dangling)) ∧
  (∀ n offset, clearVar "q" n offset q_dangling = (Return false, q_dangling)) ∧
  freeVar "q" q_dangling = (Return false, q_dangling) ∧
  (∀ other n so do,
     copyVar "q" other n so do q_dangling = (Return false, q_dangling) ∧
     copyVar other "q" n so do q_dangling = (Return false, q_dangling)).
Proof.
  apply (Var_forms_not_live q_dangling "q").
  intros a Ha. vm_compute in Ha. injection Ha as <-. reflexivity.
Defined.

(** X14: [freeVar] through the first name bound to a live address frees the
    block and unbinds that name, so a second [freeVar] of it returns
    [false]; the other names keep their entries. *)
Theorem freeVar_first_name (s : VirtualMemory) (name : string) (a : Z)
    (l1 l2 : list (string * Z)) (mem : list byte) :
  NoDup (mappedAddressNames s).*1 →
  mappedAddressNames s = l1 ++ (name, a) :: l2 →
  Forall (λ p, p.2 ≠ a) l1 →
  memory s !! a = Some mem →
  ∃ s',
    freeVar name s = (Return true, s') ∧
    mappedAddressNames s' = l1 ++ l2 ∧
    hasVar name s' = false ∧
    has a s' = false ∧
    freeVar name s' = (Return false, s').
Proof.
  intros Hnd Hnames Hl1 Hlive.
  assert ((name ∉ l1.*1) ∧ (name ∉ (l1 ++ l2).*1)) as [Hnot1 Hnot].
  { rewrite Hnames, fmap_app, fmap_cons in Hnd. cbn [fst] in Hnd.
    apply NoDup_app in Hnd as (_ & Hmid & Hl2).
    apply NoDup_cons in Hl2 as [Hnot2 _].
    assert (name ∉ l1.*1) as Hnot1 by (intros Hin; by apply (Hmid name); [|left]).
    split; [done|]. rewrite fmap_app. by intros [Hin|Hin]%elem_of_app. }
  assert (getVarAddress name s = Some a) as Hget
    by (rewrite getVarAddress_get, Hnames; by apply Map_get_middle).
  destruct (bound_name name a s Hget) as [Hhas Haddr].
  eexists. unfold freeVar at 1. rewrite Hhas, Haddr. cbn [negb].
  unfold free at 1. rewrite (has_true s a mem Hlive). cbn [negb].
  split; [done|]. cbn [mappedAddressNames].
  assert (drop_first_name a (mappedAddressNames s) = l1 ++ l2) as Hdrop
    by (rewrite Hnames in Hnd |- *; by apply drop_first_name_at).
  split; [done|].
  assert (hasVar name
            {| mappedAddressNames := drop_first_name a (mappedAddressNames s);
               memory := delete a (memory s);
               occupiedAddresses :=
                 List.filter (λ o, negb (o =? a)) (occupiedAddresses s);
               capacity := capacity s |} = false) as Hunbound.
  { unfold hasVar, Map_has. cbn [mappedAddressNames]. rewrite Hdrop.
    rewrite Map_get_absent by done. by apply bool_decide_eq_false_2; intros [? ?]. }
  split; [done|].
  split; [apply has_false; cbn; apply lookup_delete_eq|].
  unfold freeVar. by rewrite Hunbound.
Qed.

Lemma freeVar_first_name_witness :
  ∃ s',
    freeVar "p" two_names = (Return true, s') ∧
    mappedAddressNames s' = [] ++ [("q", 0)] ∧
    hasVar "p" s' = false ∧
    has 0 s' = false ∧
    freeVar "p" s' = (Return false, s').
Proof.
  apply (freeVar_first_name two_names "p" 0 [] [("q", 0)] (replicate 10 Byte.x00)).
  - apply (bool_decide_unpack _). by vm_compute.
  - reflexivity.
  - constructor.
  - reflexivity.
Defined.

(** Freeing through the second of two names bound to one address unbinds the
    first and leaves the name used bound to an address that is not live. *)
Example freeVar_second_name :
  fst (freeVar "q" two_names) = Return true ∧
  mappedAddressNames (snd (freeVar "q" two_names)) = [("q", 0)] ∧
  has 0 (snd (freeVar "q" two_names)) = false.
Proof. by vm_compute. Qed.

(** ** Scalars *)

Lemma byte_of_Z_mod (z : Z) : byte_of_Z (z mod 256) = byte_of_Z z.
Proof. unfold byte_of_Z. by rewrite Z.mod_mod by lia. Qed.

(** Writing the [n] bytes of a value and reading [n] bytes back there. *)
Lemma native_write_read (host : endianness) (s : VirtualMemory) (a offset x : Z)
    (n : nat) (mem : list byte) :
  memory s !! a = Some mem → 0 ≤ offset → (0 < n)%nat →
  offset + Z.of_nat n ≤ blen mem →
  ∃ s' w,
    write a (native_bytes host n x) offset s = (Return true, s') ∧
    read a (Some (Z.of_nat n)) offset s' = Return (Some w) ∧
    elements w = native_bytes host n x ∧
    native_decode host (elements w) = x mod 2 ^ (8 * Z.of_nat n).
Proof.
  intros Hlive Hoff Hn Hfit.
  assert (length (native_bytes host n x) = n) as Hlen by apply native_bytes_length.
  assert (blen (native_bytes host n x) = Z.of_nat n) as Hblen by (unfold blen; lia).
  destruct (set_at_parts mem (native_bytes host n x) offset Hoff) as (_ & Hat & _); [lia|].
  assert (length (set_at mem (native_bytes host n x) offset) = length mem) as Hkeep
    by (apply set_at_length; lia).
  eexists _, _. split; [apply write_live; [done | lia ..]|].
  split; [apply read_live; [apply lookup_insert_eq | lia | lia | unfold blen in *; lia]|].
  assert (elements
            (if (Z.of_nat n =? blen (set_at mem (native_bytes host n x) offset)) && (offset =? 0)
             then whole (set_at mem (native_bytes host n x) offset)
             else subarray (set_at mem (native_bytes host n x) offset) offset
                           (offset + Z.of_nat n)) = native_bytes host n x) as Hel.
  { rewrite read_view_elements by (unfold blen in *; lia).
    rewrite Nat2Z.id. by rewrite <- Hlen at 1. }
  split; [done|]. rewrite Hel. apply native_decode_bytes.
Qed.

(** X15: for 8, 16 and 32 bits the signed writer is the unsigned writer: the
    typed arrays of one width store the same bytes for every value, so the
    two calls have the same result and effect. *)
Theorem signed_writers_are_unsigned (host : endianness) (a v offset : Z)
    (s : VirtualMemory) :
  writeInt8 host a v offset s = writeUint8 a v offset s ∧
  writeInt16 host a v offset s = writeUint16 host a v offset s ∧
  writeInt32 host a v offset s = writeUint32 host a v offset s.
Proof.
  unfold writeInt8, writeUint8, writeInt16, writeUint16, writeInt32, writeUint32.
  assert (native_bytes host 1 (ToInt 8 v) = native_bytes host 1 (ToUint 8 v))
    as -> by apply (native_bytes_ToInt host 1 v).
  assert (native_bytes host 2 (ToInt 16 v) = native_bytes host 2 (ToUint 16 v))
    as -> by apply (native_bytes_ToInt host 2 v).
  assert (native_bytes host 4 (ToInt 32 v) = native_bytes host 4 (ToUint 32 v))
    as -> by apply (native_bytes_ToInt host 4 v).
  split; [|done].
  assert (native_bytes host 1 (ToUint 8 v) = [byte_of_Z (ToUint 8 v)])
    as -> by (destruct host; cbn; by rewrite byte_of_Z_mod).
  done.
Qed.

(** X16: each unsigned writer, where its bytes fit, returns [true], and a
    read of as many bytes at the same offset shows bytes that decode, in the
    byte order of the host, to the value reduced modulo 2 to the width. *)
Theorem unsigned_write_read (host : endianness) (s : VirtualMemory) (a v offset : Z)
    (mem : list byte) :
  memory s !! a = Some mem → 0 ≤ offset →
  (offset + 1 ≤ blen mem →
   ∃ s' w, writeUint8 a v offset s = (Return true, s') ∧
           read a (Some 1) offset s' = Return (Some w) ∧
           native_decode host (elements w) = v mod 2 ^ 8) ∧
  (offset + 2 ≤ blen mem →
   ∃ s' w, writeUint16 host a v offset s = (Return true, s') ∧
           read a (Some 2) offset s' = Return (Some w) ∧
           native_decode host (elements w) = v mod 2 ^ 16) ∧
  (offset + 4 ≤ blen mem →
   ∃ s' w, writeUint32 host a v offset s = (Return true, s') ∧
           read a (Some 4) offset s' = Return (Some w) ∧
           native_decode host (elements w) = v mod 2 ^ 32) ∧
  (offset + 8 ≤ blen mem →
   ∃ s' w, writeUint64 host a v offset s = (Return true, s') ∧
           read a (Some 8) offset s' = Return (Some w) ∧
           native_decode host (elements w) = v mod 2 ^ 64).
Proof.
  intros Hlive Hoff.
  assert (∀ n : nat, (0 < n)%nat → offset + Z.of_nat n ≤ blen mem →
            ∃ s' w,
              write a (native_bytes host n (ToUint (8 * Z.of_nat n) v)) offset s =
                (Return true, s') ∧
              read a (Some (Z.of_nat n)) offset s' = Return (Some w) ∧
              native_decode host (elements w) = v mod 2 ^ (8 * Z.of_nat n)) as Hw.
  { intros n Hn Hfit.
    destruct (native_write_read host s a offset (ToUint (8 * Z.of_nat n) v) n mem)
      as (s' & w & Hwrite & Hread & _ & Hdec); [done | done | lia | lia |].
    exists s', w. split; [done|]. split; [done|].
    rewrite Hdec. unfold ToUint. apply Z.mod_mod.
    apply Z.pow_nonzero; lia. }
  split; [|split; [|split]]; intros Hfit.
  - destruct (Hw 1%nat) as (s' & w & Hwrite & Hread & Hdec); [lia | lia |].
    exists s', w. split; [|done]. rewrite <- Hwrite. unfold writeUint8.
    by destruct host; cbn; rewrite byte_of_Z_mod.
  - apply (Hw 2%nat); lia.
  - apply (Hw 4%nat); lia.
  - apply (Hw 8%nat); lia.
Qed.

Lemma unsigned_write_read_witness :
  (0 + 1 ≤ blen (replicate 4 Byte.x00) →
   ∃ s' w, writeUint8 0 (-1) 0 one_block = (Return true, s') ∧
           read 0 (Some 1) 0 s' = Return (Some w) ∧
           native_decode BigEndian (elements w) = (-1) mod 2 ^ 8) ∧
  (0 + 2 ≤ blen (replicate 4 Byte.x00) →
   ∃ s' w, writeUint16 BigEndian 0 (-1) 0 one_block = (Return true, s') ∧
           read 0 (Some 2) 0 s' = Return (Some w) ∧
           native_decode BigEndian (elements w) = (-1) mod 2 ^ 16) ∧
  (0 + 4 ≤ blen (replicate 4 Byte.x00) →
   ∃ s' w, writeUint32 BigEndian 0 (-1) 0 one_block = (Return true, s') ∧
           read 0 (Some 4) 0 s' = Return (Some w) ∧
           native_decode BigEndian (elements w) = (-1) mod 2 ^ 32) ∧
  (0 + 8 ≤ blen (replicate 4 Byte.x00) →
   ∃ s' w, writeUint64 BigEndian 0 (-1) 0 one_block = (Return true, s') ∧
           read 0 (Some 8) 0 s' = Return (Some w) ∧
           native_decode BigEndian (elements w) = (-1) mod 2 ^ 64).
Proof.
  apply (unsigned_write_read BigEndian one_block 0 (-1) 0 (replicate 4 Byte.x00)).
  - reflexivity.
  - lia.
Defined.

(** X19: at offset 0 of a live block whose length is a multiple of 4,
    [readUint32] returns what [writeUint32] wrote, reduced modulo [2^32]. *)
Theorem uint32_roundtrip_at_0 (host : endianness) (s : VirtualMemory) (a v : Z)
    (mem : list byte) :
  memory s !! a = Some mem → 4 ≤ blen mem → blen mem mod 4 = 0 →
  ∃ s', writeUint32 host a v 0 s = (Return true, s') ∧
        readUint32 host a 0 s' = Return (v mod 2 ^ 32) ∧
        (0 ≤ v < 2 ^ 32 → readUint32 host a 0 s' = Return v).
Proof.
  intros Hlive Hfit Hmult.
  destruct (writeUint32_readUint32_aligned host s a v mem Hlive Hfit Hmult)
    as (s' & Hwrite & Hread).
  exists s'. split; [done|]. split; [done|].
  intros Hv. by rewrite Hread, Z.mod_small.
Qed.

Lemma uint32_roundtrip_at_0_witness :
  ∃ s', writeUint32 BigEndian 0 305419896 0 one_block = (Return true, s') ∧
        readUint32 BigEndian 0 0 s' = Return (305419896 mod 2 ^ 32) ∧
        (0 ≤ 305419896 < 2 ^ 32 → readUint32 BigEndian 0 0 s' = Return 305419896).
Proof.
  apply (uint32_roundtrip_at_0 BigEndian one_block 0 305419896 (replicate 4 Byte.x00)).
  - reflexivity.
  - vm_compute. discriminate.
  - reflexivity.
Defined.

(** X17: once the bounds check of its read has passed, [readUint32] does not
    look at the offset: it answers with the first four bytes of the block,
    or throws when the length of the block is not a multiple of 4. *)
Theorem readUint32_any_offset (host : endianness) (s : VirtualMemory)
    (a offset1 offset2 : Z) (mem : list byte) :
  memory s !! a = Some mem →
  0 ≤ offset1 → offset1 + 4 ≤ blen mem →
  0 ≤ offset2 → offset2 + 4 ≤ blen mem →
  readUint32 host a offset1 s = readUint32 host a offset2 s ∧
  (blen mem mod 4 = 0 →
   readUint32 host a offset1 s = Return (native_decode host (take 4 mem))) ∧
  (blen mem mod 4 ≠ 0 →
   readUint32 host a offset1 s =
     Throw (RangeError "byte length of Uint32Array should be a multiple of 4")).
Proof.
  intros Hlive Ho1 Hf1 Ho2 Hf2.
  rewrite !(readUint32_live host s a _ mem) by done.
  split; [done|]. split; intros Hm.
  - by rewrite Hm.
  - by destruct (Z.eqb_spec (blen mem mod 4) 0).
Qed.

Lemma readUint32_any_offset_witness :
  readUint32 LittleEndian 0 0 (two_words LittleEndian) =
    readUint32 LittleEndian 0 4 (two_words LittleEndian) ∧
  (blen [Byte.x01; Byte.x00; Byte.x00; Byte.x00; Byte.x02; Byte.x00; Byte.x00; Byte.x00]
     mod 4 = 0 →
   readUint32 LittleEndian 0 0 (two_words LittleEndian) =
     Return (native_decode LittleEndian
               (take 4 [Byte.x01; Byte.x00; Byte.x00; Byte.x00;
                        Byte.x02; Byte.x00; Byte.x00; Byte.x00]))) ∧
  (blen [Byte.x01; Byte.x00; Byte.x00; Byte.x00; Byte.x02; Byte.x00; Byte.x00; Byte.x00]
     mod 4 ≠ 0 →
   readUint32 LittleEndian 0 0 (two_words LittleEndian) =
     Throw (RangeError "byte length of Uint32Array should be a multiple of 4")).
Proof.
  apply (readUint32_any_offset LittleEndian (two_words LittleEndian) 0 0 4
           [Byte.x01; Byte.x00; Byte.x00; Byte.x00; Byte.x02; Byte.x00; Byte.x00; Byte.x00]).
  - reflexivity.
  - lia.
  - vm_compute. discriminate.
  - lia.
  - vm_compute. discriminate.
Defined.

(** X18: [sizeof] gives 8 for [number] and 4 for [uint32] and throws a
    [TypeError] for any other name; a block allocated with the size of a
    [uint32] takes a [writeUint32] at offset 0, and [readUint32] there
    returns the value modulo [2^32]. *)
Theorem sizeof_uint32_block (host : endianness) (s : VirtualMemory) (v : Z) :
  byteLength s + 4 ≤ capacity s →
  sizeof "number" = Return 8 ∧
  (∀ t, t ≠ "number" → t ≠ "uint32" → sizeof t = Throw (TypeError "Invalid data type")) ∧
  ∃ n a s1 s2,
    sizeof "uint32" = Return n ∧
    alloc n s = (Return a, s1) ∧
    writeUint32 host a v 0 s1 = (Return true, s2) ∧
    readUint32 host a 0 s2 = Return (v mod 2 ^ 32).
Proof.
  intros Hfit. split; [done|]. split.
  { intros t Hn Hu. unfold sizeof.
    destruct (String.eqb_spec t "number"); [done|].
    by destruct (String.eqb_spec t "uint32"). }
  destruct (alloc_cases 4 s) as [[e He]|(_ & _ & a & Hfree & Halloc)].
  { exfalso. revert He. unfold alloc. zcmp; done. }
  destruct (writeUint32_readUint32_aligned host
              (with_memory (<[a := replicate (Z.to_nat 4) Byte.x00]> (memory s)) s)
              a v (replicate (Z.to_nat 4) Byte.x00))
    as (s2 & Hwrite & Hread); [apply lookup_insert_eq | done | done |].
  by exists 4, a, (with_memory (<[a := replicate (Z.to_nat 4) Byte.x00]> (memory s)) s), s2.
Qed.

Lemma sizeof_uint32_block_witness :
  sizeof "number" = Return 8 ∧
  (∀ t, t ≠ "number" → t ≠ "uint32" → sizeof t = Throw (TypeError "Invalid data type")) ∧
  ∃ n a s1 s2,
    sizeof "uint32" = Return n ∧
    alloc n two_names = (Return a, s1) ∧
    writeUint32 LittleEndian a 4294967297 0 s1 = (Return true, s2) ∧
    readUint32 LittleEndian a 0 s2 = Return (4294967297 mod 2 ^ 32).
Proof.
  apply (sizeof_uint32_block LittleEndian two_names 4294967297).
  vm_compute. discriminate.
Defined.

(** ** Strings *)

Section StringCodecFurther.
Context `{TextCodec}.

(** X20: [writeString] returns an address only at offset 0, for a string
    whose encoding is not empty and fits, and the address was not live
    before; in every other case it throws a [RangeError].  It never returns
    [null]: the address it writes to has just been allocated. *)
Theorem writeString_outcomes (v : string) (offset : Z) (s : VirtualMemory) :
  match fst (writeString v offset s) with
  | Return (Some addr) =>
      offset = 0 ∧ 0 < blen (encodeText v) ∧
      byteLength s + blen (encodeText v) ≤ capacity s ∧
      memory s !! addr = None
  | Return None => False
  | Throw e => ∃ msg, e = RangeError msg
  end.
Proof.
  unfold writeString, mbind, M_bind, bind.
  destruct (alloc_cases (blen (encodeText v)) s)
    as [[e He]|(Hpos & Hfit & addr & Hfree & Halloc)].
  - rewrite He. cbn [fst]. revert He. unfold alloc.
    destruct (_ <=? _); [intros [= <-]; by eexists|].
    destruct (_ >? _); [intros [= <-]; by eexists|]. done.
  - rewrite Halloc.
    set (zeros := replicate (Z.to_nat (blen (encodeText v))) Byte.x00).
    assert (blen zeros = blen (encodeText v)) as Hzeros
      by (unfold zeros, blen; rewrite length_replicate; lia).
    unfold write. cbn [memory with_memory]. rewrite lookup_insert_eq, Hzeros.
    destruct ((offset <? 0) || (offset >=? blen (encodeText v))) eqn:G1;
      [cbn; by eexists|].
    destruct ((blen (encodeText v) <=? 0)
              || (offset + blen (encodeText v) >? blen (encodeText v))) eqn:G2;
      [cbn; by eexists|].
    cbn. split; [|done]. revert G1 G2. by zcmp.
Qed.

Lemma writeString_returns (s : VirtualMemory) (v : string) :
  0 < blen (encodeText v) → byteLength s + blen (encodeText v) ≤ capacity s →
  ∃ addr,
    memory s !! addr = None ∧
    writeString v 0 s =
      (Return (Some addr), with_memory (<[addr := encodeText v]> (memory s)) s).
Proof.
  intros Hpos Hfit.
  destruct (alloc_cases (blen (encodeText v)) s)
    as [[e He]|(_ & _ & addr & Hfree & Halloc)].
  { exfalso. revert He. unfold alloc. zcmp; done. }
  set (zeros := replicate (Z.to_nat (blen (encodeText v))) Byte.x00) in *.
  assert (length zeros = length (encodeText v)) as Hzeros
    by (unfold zeros, blen; rewrite length_replicate; lia).
  exists addr. split; [done|].
  unfold writeString, mbind, M_bind, bind. rewrite Halloc.
  rewrite (write_live _ addr 0 zeros);
    [|apply lookup_insert_eq | lia | lia | unfold blen; lia].
  cbn [negb mret M_ret ret]. rewrite set_at_0, drop_ge, app_nil_r by lia.
  unfold with_memory. cbn. by rewrite insert_insert_eq.
Qed.

(** X21: after a [writeString] that returned an address, [readString] of
    that address with the length left out decodes the whole block, which is
    the encoding of the string and nothing more; on an address that is not
    live [readString] returns [null]. *)
Theorem readString_whole_block (s : VirtualMemory) (v : string) :
  0 < blen (encodeText v) → byteLength s + blen (encodeText v) ≤ capacity s →
  ∃ addr s',
    writeString v 0 s = (Return (Some addr), s') ∧
    memory s' !! addr = Some (encodeText v) ∧
    readString addr None 0 s' = Return (Some (decodeText (encodeText v))) ∧
    (∀ b n offset, has b s' = false → readString b n offset s' = Return None).
Proof.
  intros Hpos Hfit.
  destruct (writeString_returns s v Hpos Hfit) as (addr & Hfree & Hwrite).
  eexists addr, _. split; [exact Hwrite|].
  split; [apply lookup_insert_eq|]. split.
  - unfold readString.
    rewrite (read_whole _ addr (encodeText v)); [|apply lookup_insert_eq | done].
    by rewrite elements_whole.
  - intros b n offset Hb. unfold readString, read.
    unfold has in Hb. apply bool_decide_eq_false in Hb.
    destruct (memory _ !! b); [|done]. destruct Hb. by eexists.
Qed.
End StringCodecFurther.

Lemma readString_whole_block_witness :
  ∃ addr s',
    writeString "Hello" 0 two_names = (Return (Some addr), s') ∧
    memory s' !! addr = Some (encodeText "Hello") ∧
    readString addr None 0 s' = Return (Some (decodeText (encodeText "Hello"))) ∧
    (∀ b n offset, has b s' = false → readString b n offset s' = Return None).
Proof.
  apply (readString_whole_block two_names "Hello").
  - reflexivity.
  - vm_compute. discriminate.
Defined.

(** ** States of an object in use *)




(** X23: a space built by the constructor is empty: [free] of any address
    returns [false], the first allocation that fits gets address 0, and
    asking for one byte more than the capacity throws a [RangeError]. *)
Theorem new_space (cap : Z) (s0 : VirtualMemory) :
  new cap = Return s0 →
  cap ≤ MAX_SAFE_MEMORY_SIZE ∧ capacity s0 = cap ∧
  size s0 = 0 ∧ byteLength s0 = 0 ∧
  (∀ a, has a s0 = false ∧ free a s0 = (Return false, s0) ∧
        read a None 0 s0 = Return None) ∧
  (∀ name, hasVar name s0 = false) ∧
  (∀ n, 0 < n → n ≤ cap → fst (alloc n s0) = Return 0) ∧
  (∃ msg, alloc (cap + 1) s0 = (Throw (RangeError msg), s0)).
Proof.
  intros Hnew.
  assert (cap ≤ MAX_SAFE_MEMORY_SIZE) as Hmax.
  { revert Hnew. unfold new. rewrite Z.gtb_ltb.
    by destruct (Z.ltb_spec MAX_SAFE_MEMORY_SIZE cap). }
  apply new_empty in Hnew as ->.
  split; [done|]. split; [done|]. split; [done|].
  assert (byteLength {| mappedAddressNames := []; memory := ∅;
                        occupiedAddresses := []; capacity := cap |} = 0) as Hbl
    by (unfold byteLength; cbn; apply total_bytes_empty).
  split; [done|]. split.
  { intros a. split; [by apply has_false|]. split.
    - unfold free. by rewrite has_false.
    - unfold read. cbn. by rewrite lookup_empty. }
  split; [done|]. split.
  - intros n Hpos Hfit. unfold alloc. rewrite Hbl. cbn [capacity occupiedAddresses length].
    destruct (Z.leb_spec n 0); [lia|]. rewrite Z.gtb_ltb.
    destruct (Z.ltb_spec cap (0 + n)); [lia|].
    cbn [fst]. unfold size. cbn [memory]. rewrite probe_step. by rewrite lookup_empty.
  - unfold alloc. rewrite Hbl. cbn [capacity].
    destruct (Z.leb_spec (cap + 1) 0); [by eexists|]. rewrite Z.gtb_ltb.
    destruct (Z.ltb_spec cap (0 + (cap + 1))); [by eexists | lia].
Qed.

Lemma new_space_witness :
  80 ≤ MAX_SAFE_MEMORY_SIZE ∧ capacity empty80 = 80 ∧
  size empty80 = 0 ∧ byteLength empty80 = 0 ∧
  (∀ a, has a empty80 = false ∧ free a empty80 = (Return false, empty80) ∧
        read a None 0 empty80 = Return None) ∧
  (∀ name, hasVar name empty80 = false) ∧
  (∀ n, 0 < n → n ≤ 80 → fst (alloc n empty80) = Return 0) ∧
  (∃ msg, alloc (80 + 1) empty80 = (Throw (RangeError msg), empty80)).
Proof. apply (new_space 80 empty80). reflexivity. Defined.

(** ** Allocating in a row *)

Lemma sum_app (l1 l2 : list Z) :
  foldr Z.add 0 (l1 ++ l2) = foldr Z.add 0 l1 + foldr Z.add 0 l2.
Proof. induction l1 as [|x l1 IH]; cbn; lia. Qed.

Lemma sum_nonneg (l : list Z) : Forall (λ n, 0 < n) l → 0 ≤ foldr Z.add 0 l.
Proof. induction 1; cbn; lia. Qed.

(** With no occupied address recorded and the address [size()] not live,
    that is the address [alloc] takes. *)
Lemma alloc_at_size (s : VirtualMemory) (n : Z) :
  occupiedAddresses s = [] → 0 < n → byteLength s + n ≤ capacity s →
  memory s !! size s = None →
  alloc n s =
    (Return (size s),
     with_memory (<[size s := replicate (Z.to_nat n) Byte.x00]> (memory s)) s).
Proof.
  intros Hocc Hpos Hfit Hfree. unfold alloc. rewrite Hocc. cbn [length].
  destruct (Z.leb_spec n 0); [lia|]. rewrite Z.gtb_ltb.
  destruct (Z.ltb_spec (capacity s) (byteLength s + n)); [lia|].
  change (0 <? Z.of_nat 0) with false. cbv zeta iota.
  rewrite probe_step, Hfree. done.
Qed.

(** The space after allocating the sizes [ns] in turn, starting empty. *)
Lemma allocs_state (host : endianness) (cap : Z) (ns : list Z) :
  Forall (λ n, 0 < n) ns → foldr Z.add 0 ns ≤ cap →
  let s := run host (Alloc <$> ns)
               {| mappedAddressNames := []; memory := ∅; occupiedAddresses := [];
                  capacity := cap |} in
  occupiedAddresses s = [] ∧ capacity s = cap ∧
  byteLength s = foldr Z.add 0 ns ∧
  size s = Z.of_nat (length ns) ∧
  ∀ a, memory s !! a =
       if decide (0 ≤ a)
       then (λ n, replicate (Z.to_nat n) Byte.x00) <$> ns !! Z.to_nat a
       else None.
Proof.
  induction ns as [|n ns IH] using rev_ind; intros Hall Hsum s.
  - subst s. cbn. split; [done|]. split; [done|].
    split; [unfold byteLength; cbn; apply total_bytes_empty|]. split; [done|].
    intros a. rewrite lookup_empty. by destruct (decide (0 ≤ a)).
  - apply Forall_app in Hall as [Hall Hn]. apply Forall_cons in Hn as [Hn _].
    rewrite sum_app in Hsum. cbn in Hsum.
    pose proof (sum_nonneg ns Hall) as Hnn.
    destruct IH as (Hocc & Hcap & Hbl & Hsize & Hmem); [done | lia |].
    subst s. rewrite fmap_app, run_app.
    set (s := run host (Alloc <$> ns) _) in *.
    cbn [fmap list_fmap run fold_left]. unfold exec. cbn [call].
    unfold fmapM, mbind, M_bind, bind.
    assert (memory s !! size s = None) as Hfree.
    { rewrite Hmem, Hsize. rewrite decide_True by lia.
      rewrite Nat2Z.id, lookup_ge_None_2; done. }
    rewrite (alloc_at_size s n) by (done || lia).
    unfold with_memory.
    cbn [mret M_ret ret snd occupiedAddresses capacity memory].
    split; [done|]. split; [done|]. split.
    { unfold byteLength in *. cbn [memory].
      rewrite total_bytes_insert by done. unfold blen.
      rewrite length_replicate, sum_app. cbn. lia. }
    split.
    { unfold size in *. cbn [memory].
      rewrite map_size_insert_None by done. rewrite length_app. cbn. lia. }
    intros a. cbn [memory]. rewrite Hsize.
    destruct (decide (Z.of_nat (length ns) = a)) as [<-|Hne].
    + rewrite lookup_insert_eq, decide_True by lia.
      by rewrite Nat2Z.id, list_lookup_middle.
    + rewrite lookup_insert_ne, Hmem by done.
      destruct (decide (0 ≤ a)); [|done].
      destruct (decide (Z.to_nat a < length ns)%nat).
      * by rewrite lookup_app_l.
      * rewrite !lookup_ge_None_2; [done | | lia].
        rewrite length_app. cbn. lia.
Qed.

(** X24: allocating sizes that are positive and together fit the capacity,
    one after the other in a new space, hands out the addresses 0, 1, 2 and
    so on in order: the [i]-th call returns [i], the block at [i] has the
    [i]-th size and is zeroed, and no other address is live. *)
Theorem allocs_in_a_row (host : endianness) (cap : Z) (s0 : VirtualMemory)
    (ns : list Z) :
  new cap = Return s0 →
  Forall (λ n, 0 < n) ns → foldr Z.add 0 ns ≤ cap →
  let s := run host (Alloc <$> ns) s0 in
  size s = Z.of_nat (length ns) ∧
  byteLength s = foldr Z.add 0 ns ∧
  (∀ (i : nat) n,
     ns !! i = Some n →
     fst (alloc n (run host (Alloc <$> take i ns) s0)) = Return (Z.of_nat i) ∧
     memory s !! Z.of_nat i = Some (replicate (Z.to_nat n) Byte.x00)) ∧
  (∀ a, is_Some (memory s !! a) ↔ 0 ≤ a < Z.of_nat (length ns)).
Proof.
  intros Hnew Hall Hsum. apply new_empty in Hnew as ->.
  destruct (allocs_state host cap ns Hall Hsum) as (Hocc & Hcap & Hbl & Hsize & Hmem).
  cbv zeta. split; [done|]. split; [done|]. split.
  - intros i n Hi. split.
    + assert (ns = take i ns ++ n :: drop (S i) ns) as Hsplit
        by (symmetry; by apply take_drop_middle).
      assert (Forall (λ n, 0 < n) (take i ns) ∧ Forall (λ n, 0 < n) (drop (S i) ns))
        as [Hpre Hpost].
      { rewrite Hsplit in Hall. apply Forall_app in Hall as [? Hrest].
        by apply Forall_cons in Hrest as [_ ?]. }
      assert (0 < n) as Hn by by eapply (Forall_lookup_1 _ ns).
      assert (foldr Z.add 0 (take i ns) + n ≤ cap) as Hfit.
      { rewrite Hsplit, sum_app in Hsum. cbn in Hsum.
        pose proof (sum_nonneg _ Hpost). lia. }
      pose proof (sum_nonneg _ Hpre) as Hnn.
      destruct (allocs_state host cap (take i ns) Hpre) as (Hocc' & Hcap' & Hbl' & Hsize' & Hmem');
        [lia|].
      assert (length (take i ns) = i) as Hlen
        by (apply lookup_lt_Some in Hi; rewrite length_take; lia).
      rewrite alloc_at_size; [cbn [fst]; by rewrite Hsize', Hlen | done | done | lia |].
      rewrite Hmem', Hsize', decide_True by lia.
      by rewrite Nat2Z.id, lookup_ge_None_2.
    + rewrite Hmem, decide_True by lia. by rewrite Nat2Z.id, Hi.
  - intros a. rewrite Hmem. destruct (decide (0 ≤ a)) as [Ha|Ha].
    + rewrite fmap_is_Some, lookup_lt_is_Some. lia.
    + split; [by intros [? ?] | lia].
Qed.

Lemma allocs_in_a_row_witness :
  let s := run LittleEndian (Alloc <$> [10; 3; 7]) empty80 in
  size s = Z.of_nat (length [10; 3; 7]) ∧
  byteLength s = foldr Z.add 0 [10; 3; 7] ∧
  (∀ (i : nat) n,
     [10; 3; 7] !! i = Some n →
     fst (alloc n (run LittleEndian (Alloc <$> take i [10; 3; 7]) empty80)) =
       Return (Z.of_nat i) ∧
     memory s !! Z.of_nat i = Some (replicate (Z.to_nat n) Byte.x00)) ∧
  (∀ a, is_Some (memory s !! a) ↔ 0 ≤ a < Z.of_nat (length [10; 3; 7])).
Proof.
  apply (allocs_in_a_row LittleEndian 80 empty80 [10; 3; 7]).
  - reflexivity.
  - repeat constructor.
  - vm_compute. discriminate.
Defined.

(** ** Reuse of addresses *)

(** X25: an address that was freed can be handed out again: after an
    allocation and the [free] of its address the blocks are as before, and
    the next allocation that fits gets the same address. *)
Theorem alloc_free_reuses (host : endianness) (s : VirtualMemory) (n m : Z) :
  reachable host s →
  0 < n → byteLength s + n ≤ capacity s →
  0 < m → byteLength s + m ≤ capacity s →
  ∃ a s1 s2,
    alloc n s = (Return a, s1) ∧
    free a s1 = (Return true, s2) ∧
    memory s2 = memory s ∧
    byteLength s2 = byteLength s ∧
    fst (alloc m s2) = Return a.
Proof.
  intros Hreach Hn Hfitn Hm Hfitm.
  pose proof (reachable_occupied host s Hreach) as Hocc.
  pose proof (alloc_reachable host s n Hreach Hn Hfitn) as Halloc.
  destruct (probe_spec (memory s) (size s)) as (_ & Hfree & _).
  remember (probe (memory s) (size s)) as a eqn:Ha.
  eexists a, _, _. split; [exact Halloc|].
  unfold free at 1.
  rewrite (has_true _ a (replicate (Z.to_nat n) Byte.x00)) by apply lookup_insert_eq.
  cbn [negb].
  assert (delete a (<[a := replicate (Z.to_nat n) Byte.x00]> (memory s)) = memory s)
    as Hback by (rewrite delete_insert_eq; by apply delete_id).
  split; [done|]. unfold alloc, byteLength, size, with_memory.
  cbn [memory occupiedAddresses capacity]. rewrite Hback, Hocc.
  split; [done|]. split; [done|].
  fold (byteLength s). cbn [List.filter length].
  destruct (Z.leb_spec m 0); [lia|]. rewrite Z.gtb_ltb.
  destruct (Z.ltb_spec (capacity s) (byteLength s + m)); [lia|].
  by subst a.
Qed.

Lemma alloc_free_reuses_witness :
  ∃ a s1 s2,
    alloc 5 two_of_three = (Return a, s1) ∧
    free a s1 = (Return true, s2) ∧
    memory s2 = memory two_of_three ∧
    byteLength s2 = byteLength two_of_three ∧
    fst (alloc 9 s2) = Return a.
Proof.
  apply (alloc_free_reuses LittleEndian two_of_three 5 9).
  - exists 80, empty80, [Alloc 10; Alloc 3; Alloc 7; Free 0]. split; reflexivity.
  - lia.
  - vm_compute. discriminate.
  - lia.
  - vm_compute. discriminate.
Defined.

(** A name left bound to a freed address resolves to the block that takes
    the address next. *)
Example dangling_name_sees_new_block :
  getVarAddress "q" q_dangling = Some 0 ∧
  has 0 q_dangling = false ∧
  fst (alloc 2 q_dangling) = Return 0 ∧
  fst (writeVar "q" [Byte.x41] 0 (snd (alloc 2 q_dangling))) = Return true.
Proof. by vm_compute. Qed.

